(** * chdb-bun: the FFI binding layer of [src/index.ts]

    A shallow embedding of the TypeScript module: the connection string
    parser, the argument list built by the [Connection] constructor, the
    result decoder [processLocalResultV2], the streaming generator
    [iterate] and the two finalization registries.

    Conventions.
    - A JavaScript string is modelled by the [string] of its UTF-8 bytes.
      Every index the program computes ([slice(5)], [indexOf("?")],
      [str[0]]) falls next to an ASCII character, so byte positions and
      UTF-16 positions cut the text at the same places.
    - A native pointer is a [Z]; the null pointer is [0].
    - Native calls and raw memory reads are effects: they thread a
      [State] that carries the native world, the trace of what was done
      to it and the two registries. *)

From Stdlib Require Import ZArith NArith List String Ascii Bool Lia Permutation.
Import ListNotations.

Local Open Scope string_scope.
Local Open Scope list_scope.

(** String concatenation, the [+] and template literals of the source. *)
Infix "+++" := String.append (right associativity, at level 60).

(** ** JavaScript strings *)

Module Js.

(** [s.slice(n)] *)
Fixpoint slice_from (n : nat) (s : string) : string :=
  match n, s with
  | O, _ => s
  | S _, EmptyString => EmptyString
  | S n', String _ s' => slice_from n' s'
  end.

(** [s.slice(0, n)] *)
Fixpoint slice_to (n : nat) (s : string) : string :=
  match n, s with
  | O, _ => EmptyString
  | S _, EmptyString => EmptyString
  | S n', String c s' => String c (slice_to n' s')
  end.

(** [s.startsWith(p)] *)
Definition startsWith (s p : string) : bool := String.prefix p s.

(** [s.indexOf(c)] for a one-character needle; [None] stands for [-1]. *)
Fixpoint indexOf (s : string) (c : ascii) : option nat :=
  match s with
  | EmptyString => None
  | String d s' =>
      if Ascii.eqb d c then Some O
      else match indexOf s' c with
           | Some i => Some (S i)
           | None => None
           end
  end.

(** [s[0]]: the first character, [None] for [undefined]. *)
Definition head (s : string) : option ascii :=
  match s with
  | EmptyString => None
  | String c _ => Some c
  end.

(** Truthiness of a string: [""] is the only falsy one. *)
Definition truthy (s : string) : bool := negb (s =? "").

(** *** Plain objects used as string maps

    [Record<string, string>] built from [{}]: the own properties in the
    order of their creation.  Assignment to an existing key keeps its
    place; [delete] removes it. *)

Definition Object := list (string * string).

Fixpoint has_own (o : Object) (k : string) : bool :=
  match o with
  | [] => false
  | (k', _) :: o' => (k' =? k) || has_own o' k
  end.

Fixpoint overwrite (o : Object) (k v : string) : Object :=
  match o with
  | [] => []
  | (k', v') :: o' =>
      if k' =? k then (k', v) :: o' else (k', v') :: overwrite o' k v
  end.

(** [o[k] = v].  The key [__proto__] reaches the accessor inherited from
    [Object.prototype], whose setter ignores a string: no own property is
    created. *)
Definition set (o : Object) (k v : string) : Object :=
  if k =? "__proto__" then o
  else if has_own o k then overwrite o k v
  else o ++ [(k, v)].

(** [delete o[k]] *)
Definition delete (o : Object) (k : string) : Object :=
  filter (fun kv => negb (fst kv =? k)) o.

(** [o[k]] restricted to own properties. *)
Fixpoint get (o : Object) (k : string) : option string :=
  match o with
  | [] => None
  | (k', v) :: o' => if k' =? k then Some v else get o' k
  end.

(** Array-index keys: the canonical decimal numerals below [2^32 - 1]. *)
Definition is_digit (c : ascii) : bool :=
  let n := nat_of_ascii c in (48 <=? n)%nat && (n <=? 57)%nat.

Fixpoint all_digits (s : string) : bool :=
  match s with
  | EmptyString => true
  | String c s' => is_digit c && all_digits s'
  end.

Fixpoint decimal (acc : N) (s : string) : N :=
  match s with
  | EmptyString => acc
  | String c s' => decimal (acc * 10 + (N_of_ascii c - 48))%N s'
  end.

Definition array_index (k : string) : option N :=
  match k with
  | EmptyString => None
  | String c rest =>
      if all_digits k
         && (negb (Ascii.eqb c "0") || (rest =? ""))
         && (String.length k <=? 10)%nat
         && (decimal 0 k <? 4294967295)%N
      then Some (decimal 0 k)
      else None
  end.

Fixpoint insert_by_index (e : N * (string * string))
         (l : list (N * (string * string))) : list (N * (string * string)) :=
  match l with
  | [] => [e]
  | e' :: l' =>
      if (fst e <=? fst e')%N then e :: l else e' :: insert_by_index e l'
  end.

Definition index_entries (o : Object) : list (N * (string * string)) :=
  fold_right
    (fun kv acc =>
       match array_index (fst kv) with
       | Some i => insert_by_index (i, kv) acc
       | None => acc
       end) [] o.

Definition named_entries (o : Object) : Object :=
  filter (fun kv => match array_index (fst kv) with
                    | Some _ => false
                    | None => true
                    end) o.

(** [Object.entries(o)]: array-index keys in ascending numeric order,
    then the other keys in creation order. *)
Definition entries (o : Object) : list (string * string) :=
  map snd (index_entries o) ++ named_entries o.

End Js.

(** ** [URLSearchParams]

    The platform's parser of [application/x-www-form-urlencoded] text, as
    the URL standard defines it: one leading [?] is dropped, the text is
    split at [&], empty pieces are skipped, each piece is cut at its
    first [=], [+] becomes a space, [%XX] is decoded, and the bytes are
    read as UTF-8 with U+FFFD in place of every malformed sequence. *)

Module URLSearchParams.

Fixpoint split_on (c : ascii) (cur : string) (s : string) : list string :=
  match s with
  | EmptyString => [cur]
  | String d s' =>
      if Ascii.eqb d c then cur :: split_on c EmptyString s'
      else split_on c (cur +++ String d EmptyString) s'
  end.

Definition cut_at_equals (piece : string) : string * string :=
  match Js.indexOf piece "=" with
  | Some i => (Js.slice_to i piece, Js.slice_from (S i) piece)
  | None => (piece, EmptyString)
  end.

Fixpoint plus_to_space (s : string) : string :=
  match s with
  | EmptyString => EmptyString
  | String c s' =>
      String (if Ascii.eqb c "+" then " "%char else c) (plus_to_space s')
  end.

Definition hex_value (c : ascii) : option nat :=
  let n := nat_of_ascii c in
  if (48 <=? n)%nat && (n <=? 57)%nat then Some (n - 48)%nat
  else if (65 <=? n)%nat && (n <=? 70)%nat then Some (n - 55)%nat
  else if (97 <=? n)%nat && (n <=? 102)%nat then Some (n - 87)%nat
  else None.

(** [skip] counts the hex digits of an escape already decoded. *)
Fixpoint percent_decode (skip : nat) (s : string) : string :=
  match s with
  | EmptyString => EmptyString
  | String c s' =>
      match skip with
      | S k => percent_decode k s'
      | O =>
          if Ascii.eqb c "%" then
            match s' with
            | String h (String l _) =>
                match hex_value h, hex_value l with
                | Some a, Some b =>
                    String (ascii_of_nat (16 * a + b)) (percent_decode 2 s')
                | _, _ => String c (percent_decode 0 s')
                end
            | _ => String c (percent_decode 0 s')
            end
          else String c (percent_decode 0 s')
      end
  end.

(** U+FFFD in UTF-8. *)
Definition replacement : string :=
  String (ascii_of_nat 239)
    (String (ascii_of_nat 191) (String (ascii_of_nat 189) EmptyString)).

(** A lead byte: the number of continuation bytes it announces and the
    range allowed for the first of them. *)
Definition lead (b : nat) : option (nat * nat * nat) :=
  if (194 <=? b)%nat && (b <=? 223)%nat then Some (1, 128, 191)%nat
  else if (224 <=? b)%nat && (b <=? 239)%nat then
    Some (2, if (b =? 224)%nat then 160 else 128,
             if (b =? 237)%nat then 159 else 191)%nat
  else if (240 <=? b)%nat && (b <=? 244)%nat then
    Some (3, if (b =? 240)%nat then 144 else 128,
             if (b =? 244)%nat then 143 else 191)%nat
  else None.

(** The UTF-8 decoder followed by re-encoding: a well-formed sequence is
    copied, a malformed one becomes U+FFFD and the offending byte is read
    again as the start of a new sequence. *)
Fixpoint utf8 (pending : string) (needed lo hi : nat) (s : string) : string :=
  match s with
  | EmptyString => if (needed =? 0)%nat then EmptyString else replacement
  | String c s' =>
      let b := nat_of_ascii c in
      let start :=
        if (b <? 128)%nat then String c (utf8 EmptyString 0 128 191 s')
        else match lead b with
             | Some (n, lo', hi') => utf8 (String c EmptyString) n lo' hi' s'
             | None => replacement +++ utf8 EmptyString 0 128 191 s'
             end in
      match needed with
      | O => start
      | S n' =>
          if (lo <=? b)%nat && (b <=? hi)%nat then
            match n' with
            | O => pending +++ String c (utf8 EmptyString 0 128 191 s')
            | S _ => utf8 (pending +++ String c EmptyString) n' 128 191 s'
            end
          else replacement +++ start
      end
  end.

Definition decode (s : string) : string :=
  utf8 EmptyString 0 128 191 (percent_decode 0 (plus_to_space s)).

(** [new URLSearchParams(init)] for a string [init]: the list of pairs. *)
Definition parse (init : string) : list (string * string) :=
  let init := if Js.startsWith init "?" then Js.slice_from 1 init else init in
  flat_map
    (fun piece =>
       if piece =? "" then []
       else let (name, value) := cut_at_equals piece in
            [(decode name, decode value)])
    (split_on "&" EmptyString init).

(** [search.entries()] *)
Definition entries (search : list (string * string)) := search.

(** [search.get(name)]: the value of the first pair of that name. *)
Fixpoint get (search : list (string * string)) (name : string)
  : option string :=
  match search with
  | [] => None
  | (k, v) :: rest => if k =? name then Some v else get rest name
  end.

End URLSearchParams.

(** ** Values that cross the boundary *)

Definition Pointer := Z.

(** [!p] for a pointer: null is the falsy one. *)
Definition is_null (p : Pointer) : bool := (p =? 0)%Z.

(** The byte that ends a C string. *)
Definition NUL : string := String (ascii_of_nat 0) EmptyString.

(** Error objects: the constructor that made them, and the two
    properties the program sets. *)
Inductive ErrorClass :=
| Builtin_class (builtin : string)
| CHDBError_class.

Record JsError := {
  ctor : ErrorClass;
  name : string;
  message : string
}.

(** Lines 15-20: [super(message); this.name = "CHDBError"]. *)
Definition CHDBError (message : string) : JsError :=
  {| ctor := CHDBError_class; name := "CHDBError"; message := message |}.

Definition TypeError (message : string) : JsError :=
  {| ctor := Builtin_class "TypeError"; name := "TypeError";
     message := message |}.

(** [e instanceof CHDBError] *)
Definition instanceof_CHDBError (e : JsError) : bool :=
  match ctor e with
  | CHDBError_class => true
  | Builtin_class _ => false
  end.

(** Lines 4-13.  [elapsed] is kept as the 64 bits of the double. *)
Record QueryStats := {
  elapsed : Z;
  rowsRead : Z;
  bytesRead : Z
}.

Record QueryResultWithStats := {
  data : string;
  stats : QueryStats
}.

(** What the program does to the native side, in order. *)
Inductive Event :=
| Read (p : Pointer) (offset : Z)
| NewCString (p : Pointer) (byteLength : option Z)
| Call_query_stable_v2 (argc : Z) (argv : list (option string))
| Call_free_result_v2 (result : Pointer)
| Call_connect_chdb (argc : Z) (argv : list (option string))
| Call_close_conn (conn : Pointer)
| Call_query_conn (conn : Pointer) (query format : string)
| Call_query_conn_streaming (conn : Pointer) (query format : string)
| Call_streaming_result_error (stream : Pointer)
| Call_streaming_fetch_result (conn stream : Pointer)
| Call_streaming_cancel_query (conn stream : Pointer)
| Call_destroy_result (stream : Pointer).

Definition is_free (e : Event) : bool :=
  match e with Call_free_result_v2 _ => true | _ => false end.

Definition is_free_of (p : Pointer) (e : Event) : bool :=
  match e with Call_free_result_v2 q => (q =? p)%Z | _ => false end.

Definition is_close (e : Event) : bool :=
  match e with Call_close_conn _ => true | _ => false end.

Definition is_cancel (e : Event) : bool :=
  match e with Call_streaming_cancel_query _ _ => true | _ => false end.

Definition is_destroy (e : Event) : bool :=
  match e with Call_destroy_result _ => true | _ => false end.

Definition is_error_check (e : Event) : bool :=
  match e with Call_streaming_result_error _ => true | _ => false end.

Definition is_read_at (p : Pointer) (offset : Z) (e : Event) : bool :=
  match e with
  | Read q o => (q =? p)%Z && (o =? offset)%Z
  | _ => false
  end.

(** How many events of a trace satisfy a test. *)
Definition count (f : Event -> bool) (t : list Event) : nat :=
  List.length (filter f t).

(** The native module ([libchdb.so], lines 22-64) and the process memory
    it fills, over an abstract world.  [mem_cstring] is the construction
    of a [CString]: it can fail (a length beyond what a string may
    hold), hence the sum. *)
Record Native (World : Type) := {
  mem_ptr : World -> Pointer -> Z -> Pointer;
  mem_u64 : World -> Pointer -> Z -> Z;
  mem_f64 : World -> Pointer -> Z -> Z;
  mem_cstring : World -> Pointer -> option Z -> JsError + string;
  lib_query_stable_v2 :
    World -> Z -> list (option string) -> Pointer * World;
  lib_free_result_v2 : World -> Pointer -> World;
  lib_connect_chdb : World -> Z -> list (option string) -> Pointer * World;
  lib_close_conn : World -> Pointer -> World;
  lib_query_conn : World -> Pointer -> string -> string -> Pointer * World;
  lib_query_conn_streaming :
    World -> Pointer -> string -> string -> Pointer * World;
  lib_chdb_streaming_result_error : World -> Pointer -> Pointer * World;
  lib_chdb_streaming_fetch_result :
    World -> Pointer -> Pointer -> Pointer * World;
  lib_chdb_streaming_cancel_query : World -> Pointer -> Pointer -> World;
  lib_chdb_destroy_result : World -> Pointer -> World
}.

Arguments mem_ptr {World}.
Arguments mem_u64 {World}.
Arguments mem_f64 {World}.
Arguments mem_cstring {World}.
Arguments lib_query_stable_v2 {World}.
Arguments lib_free_result_v2 {World}.
Arguments lib_connect_chdb {World}.
Arguments lib_close_conn {World}.
Arguments lib_query_conn {World}.
Arguments lib_query_conn_streaming {World}.
Arguments lib_chdb_streaming_result_error {World}.
Arguments lib_chdb_streaming_fetch_result {World}.
Arguments lib_chdb_streaming_cancel_query {World}.
Arguments lib_chdb_destroy_result {World}.

(** A [FinalizationRegistry] entry: the object watched, the value held
    for the callback, and the token that [unregister] looks for. *)
Record Registration (Held : Type) := {
  reg_target : nat;
  reg_held : Held;
  reg_token : option nat
}.

Arguments reg_target {Held}.
Arguments reg_held {Held}.
Arguments reg_token {Held}.

Inductive Outcome (A : Type) :=
| Ret (a : A)
| Throw (e : JsError).

Arguments Ret {A}.
Arguments Throw {A}.

(** Lines 198-202. *)
Record Connection := {
  conn_id : nat;
  path : string;
  params : Js.Object;
  ptr : Pointer
}.

(** Line 276, with the identity of the object. *)
Record StreamContext := {
  ctx_id : nat;
  connPtr : Pointer;
  streamPtr : Pointer
}.

(** The states of a generator object. *)
Inductive GeneratorState :=
| SuspendedStart
| SuspendedYield
| Completed.

Record Generator := {
  gen_ctx : StreamContext;
  gen_state : GeneratorState
}.

(** [{ value, done }] *)
Inductive IteratorResult :=
| IterValue (value : QueryResultWithStats)
| IterDone.

(** Lines 77-93: the table of pointers to the NUL-terminated copies of
    the arguments, closed by a null pointer. *)
Record Argv := {
  argc : Z;
  argvPtr : list (option string)
}.

Definition buildArgv (args : list string) : Argv :=
  {| argc := Z.of_nat (List.length args);
     argvPtr := map (fun a => Some (a +++ NUL)) args ++ [None] |}.

(** ** The connection string parser (index.ts, lines 136-175) *)

Section Parser.

(** [path.resolve] of [node:path]: it depends on the working directory of
    the process, so it is left to the environment. *)
Variable path_resolve : string -> string.

(** Lines 145-150. *)
Definition strip_file_scheme (str : string) : string :=
  if Js.startsWith str "file:" then
    let str := Js.slice_from 5 str in
    if Js.startsWith str "///" then Js.slice_from 2 str else str
  else str.

(** Lines 159-165: the rewriting of [udf_path]. *)
Definition expand_udf_path (search : list (string * string))
           (params : Js.Object) : Js.Object :=
  match URLSearchParams.get search "udf_path" with
  | Some udfPath =>
      if Js.truthy udfPath then
        let params := Js.set params "--" "" in
        let params := Js.set params "user_scripts_path" udfPath in
        let params :=
          Js.set params "user_defined_executable_functions_config"
                 (udfPath +++ "/*.xml") in
        Js.delete params "udf_path"
      else params
  | None => params
  end.

(** Lines 152-168: the query component. *)
Definition split_query (str : string) (params : Js.Object)
  : string * Js.Object :=
  match Js.indexOf str "?" with
  | Some queryPos =>
      let search := URLSearchParams.parse (Js.slice_from (queryPos + 1) str) in
      let params :=
        fold_left (fun params kv => Js.set params (fst kv) (snd kv))
                  (URLSearchParams.entries search) params in
      let params := expand_udf_path search params in
      (Js.slice_to queryPos str, params)
  | None => (str, params)
  end.

(** Lines 170-172. *)
Definition resolve_relative (str : string) : string :=
  if Js.truthy str
     && negb (match Js.head str with
              | Some c => Ascii.eqb c "/"
              | None => false
              end)
     && negb (str =? ":memory:")
  then path_resolve str
  else str.

(** Lines 152-174: what follows the handling of the [file:] scheme. *)
Definition parse_after_scheme (str : string) (params : Js.Object)
  : string * Js.Object :=
  let (str, params) := split_query str params in
  (resolve_relative str, params).

Definition parseConnectionString (str : string) : string * Js.Object :=
  let params : Js.Object := [] in
  if negb (Js.truthy str) || (str =? ":memory:") then (":memory:", params)
  else parse_after_scheme (strip_file_scheme str) params.

(** ** The argument list of the constructor (index.ts, lines 210-226) *)

(** One turn of the [for] loop over [Object.entries(params)]. *)
Definition push_param (args : list string) (kv : string * string)
  : list string :=
  let (key, value) := kv in
  if key =? "mode" then
    if value =? "ro" then args ++ ["--readonly=1"] else args
  else if key =? "--" then args ++ ["--"]
  else if negb (Js.truthy value) then args ++ ["--" +++ key]
  else args ++ ["--" +++ key +++ "=" +++ value].

Definition connection_args (path : string) (params : Js.Object)
  : list string :=
  let args := ["clickhouse"] in
  let args := if negb (path =? ":memory:")
              then args ++ ["--path=" +++ path] else args in
  fold_left push_param (Js.entries params) args.

End Parser.


(** ** A scripted native module

    A small world to run the program on: the native calls answer from a
    script, and the memory holds a connection handle and three result
    blocks. *)

Module Script.

Record World := {
  connect_answer : Pointer;
  query_answer : Pointer;
  stream_answer : Pointer;
  stream_error : Pointer;
  chunks : list Pointer
}.

(** The handle [chdb_conn**] returned by a successful connect, and the
    [chdb_conn*] it points to. *)
Definition handle : Pointer := 10%Z.
Definition conn : Pointer := 11%Z.

(** The streaming result. *)
Definition cursor : Pointer := 50%Z.

(** Three blocks: one with a payload, one with an error message, one
    with neither. *)
Definition block_ok : Pointer := 100%Z.
Definition block_error : Pointer := 101%Z.
Definition block_empty : Pointer := 102%Z.

(** Two more: one whose payload is too long to become a string, and one
    with an error message and no data, the shape of a failed result. *)
Definition block_oversized : Pointer := 103%Z.
Definition block_failed : Pointer := 104%Z.

Definition payload : Pointer := 200%Z.
Definition oversized_payload : Pointer := 201%Z.
Definition error_text : Pointer := 300%Z.
Definition stream_error_text : Pointer := 301%Z.

(** What the construction of a string raises when it cannot hold the
    bytes. *)
Definition out_of_memory : JsError :=
  {| ctor := Builtin_class "RangeError"; name := "RangeError";
     message := "Out of memory" |}.

Definition peek_ptr (w : World) (p : Pointer) (offset : Z) : Pointer :=
  if (p =? handle)%Z then (if (offset =? 0)%Z then conn else 0%Z)
  else if (p =? block_ok)%Z then (if (offset =? 0)%Z then payload else 0%Z)
  else if (p =? block_error)%Z then
    (if (offset =? 0)%Z then payload
     else if (offset =? 48)%Z then error_text else 0%Z)
  else if (p =? block_oversized)%Z then
    (if (offset =? 0)%Z then oversized_payload else 0%Z)
  else if (p =? block_failed)%Z then
    (if (offset =? 48)%Z then error_text else 0%Z)
  else 0%Z.

Definition peek_u64 (w : World) (p : Pointer) (offset : Z) : Z :=
  if (offset =? 8)%Z then 4%Z
  else if (offset =? 32)%Z then 1%Z
  else if (offset =? 40)%Z then 8%Z
  else 0%Z.

Definition peek_f64 (w : World) (p : Pointer) (offset : Z) : Z := 0%Z.

Definition peek_cstring (w : World) (p : Pointer) (byteLength : option Z)
  : JsError + string :=
  if (p =? payload)%Z then inr ("123" +++ String (ascii_of_nat 10) EmptyString)
  else if (p =? oversized_payload)%Z then inl out_of_memory
  else if (p =? error_text)%Z then inr "boom"
  else if (p =? stream_error_text)%Z then inr "query was cancelled"
  else inr EmptyString.

Definition fetch (w : World) (c st : Pointer) : Pointer * World :=
  match chunks w with
  | [] => (0%Z, w)
  | p :: rest =>
      (p, {| connect_answer := connect_answer w;
             query_answer := query_answer w;
             stream_answer := stream_answer w;
             stream_error := stream_error w;
             chunks := rest |})
  end.

Definition native : Native World :=
  {| mem_ptr := peek_ptr;
     mem_u64 := peek_u64;
     mem_f64 := peek_f64;
     mem_cstring := peek_cstring;
     lib_query_stable_v2 := fun w _ _ => (query_answer w, w);
     lib_free_result_v2 := fun w _ => w;
     lib_connect_chdb := fun w _ _ => (connect_answer w, w);
     lib_close_conn := fun w _ => w;
     lib_query_conn := fun w _ _ _ => (query_answer w, w);
     lib_query_conn_streaming := fun w _ _ _ => (stream_answer w, w);
     lib_chdb_streaming_result_error := fun w _ => (stream_error w, w);
     lib_chdb_streaming_fetch_result := fetch;
     lib_chdb_streaming_cancel_query := fun w _ _ => w;
     lib_chdb_destroy_result := fun w _ => w |}.

(** A healthy engine whose stream will deliver the given blocks. *)
Definition healthy (blocks : list Pointer) : World :=
  {| connect_answer := handle; query_answer := block_ok;
     stream_answer := cursor; stream_error := 0%Z; chunks := blocks |}.

(** [path.resolve] in a process whose working directory is [/cwd]. *)
Definition resolve (p : string) : string := "/cwd/" +++ p.

(** The text of the runtime for a call written [conn.member()] whose
    member is undefined. *)
Definition not_callable (member : string) : string :=
  "conn." +++ member +++ " is not a function. (In 'conn." +++ member
  +++ "()', 'conn." +++ member +++ "' is undefined)".

End Script.

(** ** The program over a native world *)

Section Program.

Variable path_resolve : string -> string.
Context {World : Type}.
Variable native : Native World.

(** The state threaded through the program. *)
Record State := {
  world : World;
  trace : list Event;
  connectionRegistry : list (Registration Pointer);
  streamRegistry : list (Registration (Pointer * Pointer));
  next_id : nat
}.

Definition M (A : Type) : Type := State -> Outcome A * State.

Definition ret {A} (a : A) : M A := fun s => (Ret a, s).

Definition throw {A} (e : JsError) : M A := fun s => (Throw e, s).

Definition bind {A B} (m : M A) (k : A -> M B) : M B :=
  fun s =>
    match m s with
    | (Ret a, s') => k a s'
    | (Throw e, s') => (Throw e, s')
    end.

Notation "x <- m ;; k" := (bind m (fun x => k))
  (at level 61, m at next level, right associativity).
Notation "m ;; k" := (bind m (fun _ => k))
  (at level 61, right associativity).

(** [try { body } finally { fin }] *)
Definition try_finally {A} (body : M A) (fin : M unit) : M A :=
  fun s =>
    match body s with
    | (o, s1) =>
        match fin s1 with
        | (Ret _, s2) => (o, s2)
        | (Throw e, s2) => (Throw e, s2)
        end
    end.

Definition log (e : Event) (w : World) (s : State) : State :=
  {| world := w;
     trace := trace s ++ [e];
     connectionRegistry := connectionRegistry s;
     streamRegistry := streamRegistry s;
     next_id := next_id s |}.

(** *** [read] and [CString] of [bun:ffi] *)

Definition read_ptr (p : Pointer) (offset : Z) : M Pointer :=
  fun s => (Ret (mem_ptr native (world s) p offset),
            log (Read p offset) (world s) s).

Definition read_u64 (p : Pointer) (offset : Z) : M Z :=
  fun s => (Ret (mem_u64 native (world s) p offset mod 2 ^ 64)%Z,
            log (Read p offset) (world s) s).

Definition read_f64 (p : Pointer) (offset : Z) : M Z :=
  fun s => (Ret (mem_f64 native (world s) p offset mod 2 ^ 64)%Z,
            log (Read p offset) (world s) s).

(** [new CString(p).toString()] and [new CString(p, 0, n).toString()] *)
Definition new_CString (p : Pointer) (byteLength : option Z) : M string :=
  fun s =>
    let s' := log (NewCString p byteLength) (world s) s in
    match mem_cstring native (world s) p byteLength with
    | inr text => (Ret text, s')
    | inl e => (Throw e, s')
    end.

(** *** [chdb.symbols] *)

Definition query_stable_v2 (n : Z) (argv : list (option string))
  : M Pointer :=
  fun s => let (r, w) := lib_query_stable_v2 native (world s) n argv in
           (Ret r, log (Call_query_stable_v2 n argv) w s).

Definition free_result_v2 (result : Pointer) : M unit :=
  fun s => (Ret tt, log (Call_free_result_v2 result)
                        (lib_free_result_v2 native (world s) result) s).

Definition connect_chdb (n : Z) (argv : list (option string)) : M Pointer :=
  fun s => let (r, w) := lib_connect_chdb native (world s) n argv in
           (Ret r, log (Call_connect_chdb n argv) w s).

Definition close_conn (conn : Pointer) : M unit :=
  fun s => (Ret tt, log (Call_close_conn conn)
                        (lib_close_conn native (world s) conn) s).

Definition query_conn (conn : Pointer) (q f : string) : M Pointer :=
  fun s => let (r, w) := lib_query_conn native (world s) conn q f in
           (Ret r, log (Call_query_conn conn q f) w s).

Definition query_conn_streaming (conn : Pointer) (q f : string)
  : M Pointer :=
  fun s => let (r, w) := lib_query_conn_streaming native (world s) conn q f in
           (Ret r, log (Call_query_conn_streaming conn q f) w s).

Definition chdb_streaming_result_error (stream : Pointer) : M Pointer :=
  fun s =>
    let (r, w) := lib_chdb_streaming_result_error native (world s) stream in
    (Ret r, log (Call_streaming_result_error stream) w s).

Definition chdb_streaming_fetch_result (conn stream : Pointer) : M Pointer :=
  fun s =>
    let (r, w) :=
      lib_chdb_streaming_fetch_result native (world s) conn stream in
    (Ret r, log (Call_streaming_fetch_result conn stream) w s).

Definition chdb_streaming_cancel_query (conn stream : Pointer) : M unit :=
  fun s =>
    (Ret tt,
     log (Call_streaming_cancel_query conn stream)
         (lib_chdb_streaming_cancel_query native (world s) conn stream) s).

Definition chdb_destroy_result (stream : Pointer) : M unit :=
  fun s => (Ret tt, log (Call_destroy_result stream)
                        (lib_chdb_destroy_result native (world s) stream) s).

(** *** Object identity and the two registries (lines 66-75) *)

(** A fresh object: its identity. *)
Definition new_object : M nat :=
  fun s =>
    (Ret (next_id s),
     {| world := world s; trace := trace s;
        connectionRegistry := connectionRegistry s;
        streamRegistry := streamRegistry s;
        next_id := S (next_id s) |}).

(** The callback of [connectionRegistry] (line 67). *)
Definition connectionRegistry_callback (held : Pointer) : M unit :=
  close_conn held.

(** The callback of [streamRegistry] (lines 73-74). *)
Definition streamRegistry_callback (held : Pointer * Pointer) : M unit :=
  let (connPtr, streamPtr) := held in
  chdb_streaming_cancel_query connPtr streamPtr ;;
  chdb_destroy_result streamPtr.

(** [connectionRegistry.register(target, held)]: no token is given. *)
Definition connectionRegistry_register (target : nat) (held : Pointer)
  : M unit :=
  fun s =>
    (Ret tt,
     {| world := world s; trace := trace s;
        connectionRegistry :=
          connectionRegistry s
          ++ [{| reg_target := target; reg_held := held;
                 reg_token := None |}];
        streamRegistry := streamRegistry s;
        next_id := next_id s |}).

(** [streamRegistry.register(target, held, token)] *)
Definition streamRegistry_register (target : nat) (held : Pointer * Pointer)
           (token : nat) : M unit :=
  fun s =>
    (Ret tt,
     {| world := world s; trace := trace s;
        connectionRegistry := connectionRegistry s;
        streamRegistry :=
          streamRegistry s
          ++ [{| reg_target := target; reg_held := held;
                 reg_token := Some token |}];
        next_id := next_id s |}).

Definition has_token {H} (token : nat) (r : Registration H) : bool :=
  match reg_token r with
  | Some t => Nat.eqb t token
  | None => false
  end.

(** [streamRegistry.unregister(token)] *)
Definition streamRegistry_unregister (token : nat) : M unit :=
  fun s =>
    (Ret tt,
     {| world := world s; trace := trace s;
        connectionRegistry := connectionRegistry s;
        streamRegistry :=
          filter (fun r => negb (has_token token r)) (streamRegistry s);
        next_id := next_id s |}).

(** The first entry that watches [target], and the entries left once it
    is taken out. *)
Fixpoint take_registration {H} (target : nat) (l : list (Registration H))
  : option (Registration H * list (Registration H)) :=
  match l with
  | [] => None
  | r :: l' =>
      if Nat.eqb (reg_target r) target then Some (r, l')
      else match take_registration target l' with
           | Some (r', rest) => Some (r', r :: rest)
           | None => None
           end
  end.

(** The collector found the connection [target] unreachable: an entry
    that watches it is consumed and its callback runs.  With no entry
    left nothing happens. *)
Definition connectionRegistry_collect (target : nat) : M unit :=
  fun s =>
    match take_registration target (connectionRegistry s) with
    | Some (r, rest) =>
        connectionRegistry_callback (reg_held r)
          {| world := world s; trace := trace s;
             connectionRegistry := rest;
             streamRegistry := streamRegistry s;
             next_id := next_id s |}
    | None => (Ret tt, s)
    end.

(** The same for a stream context. *)
Definition streamRegistry_collect (target : nat) : M unit :=
  fun s =>
    match take_registration target (streamRegistry s) with
    | Some (r, rest) =>
        streamRegistry_callback (reg_held r)
          {| world := world s; trace := trace s;
             connectionRegistry := connectionRegistry s;
             streamRegistry := rest;
             next_id := next_id s |}
    | None => (Ret tt, s)
    end.

(** *** The result decoder (lines 95-134) *)

Definition bufOffset : Z := 0.
Definition lenOffset : Z := 8.
Definition elapsedOffset : Z := 24.
Definition rowsReadOffset : Z := 32.
Definition bytesReadOffset : Z := 40.
Definition errorMessageOffset : Z := 48.

Definition processLocalResultV2 (resultPtr : Pointer)
  : M QueryResultWithStats :=
  errorMessagePtr <- read_ptr resultPtr errorMessageOffset ;;
  try_finally
    (if negb (is_null errorMessagePtr) then
       errorMessage <- new_CString errorMessagePtr None ;;
       throw (CHDBError ("chDB Error: " +++ errorMessage))
     else
       bufPtr <- read_ptr resultPtr bufOffset ;;
       len <- read_u64 resultPtr lenOffset ;;
       data <- new_CString bufPtr (Some len) ;;
       elapsed <- read_f64 resultPtr elapsedOffset ;;
       rowsRead <- read_u64 resultPtr rowsReadOffset ;;
       bytesRead <- read_u64 resultPtr bytesReadOffset ;;
       ret {| data := data;
              stats := {| elapsed := elapsed; rowsRead := rowsRead;
                          bytesRead := bytesRead |} |})
    (free_result_v2 resultPtr).

(** A parameter with the default ["CSV"]. *)
Definition format_or_default (format : option string) : string :=
  match format with
  | Some f => f
  | None => "CSV"
  end.

(** *** The one-shot query (lines 177-196) *)

Definition query (queryString : string) (format : option string)
  : M QueryResultWithStats :=
  let format := format_or_default format in
  let queryArgs :=
    ["clickhouse"; "--multiquery"; "--output-format=" +++ format;
     "--query=" +++ queryString] in
  let av := buildArgv queryArgs in
  resultPtr <- query_stable_v2 (argc av) (argvPtr av) ;;
  if is_null resultPtr then
    throw (CHDBError
             "chDB call failed to return a result structure (null pointer).")
  else processLocalResultV2 resultPtr.

(** *** [Connection] (lines 198-339) *)

(** The constructor (lines 204-240). *)
Definition Connection_new (connectionString : string) : M Connection :=
  this <- new_object ;;
  let (path, params) := parseConnectionString path_resolve connectionString in
  let args := connection_args path params in
  let av := buildArgv args in
  ptr <- connect_chdb (argc av) (argvPtr av) ;;
  if is_null ptr then
    throw (CHDBError
             ("Failed to connect to chDB connection at path: " +++ path))
  else
    connectionRegistry_register this ptr ;;
    ret {| conn_id := this; path := path; params := params; ptr := ptr |}.

(** Lines 242-250. *)
Definition getConnPtr (this : Connection) : M Pointer :=
  ptr <- read_ptr (ptr this) 0 ;;
  if is_null ptr then
    throw (CHDBError
             "Invalid connection pointer. The connection might be corrupted or closed.")
  else ret ptr.

(** Lines 252-270. *)
Definition Connection_query (this : Connection) (queryString : string)
           (format : option string) : M QueryResultWithStats :=
  let format := format_or_default format in
  connPtr <- getConnPtr this ;;
  resultPtr <- query_conn connPtr (queryString +++ NUL) (format +++ NUL) ;;
  if is_null resultPtr then
    throw (CHDBError
             "chDB call failed to return a result structure (null pointer).")
  else processLocalResultV2 resultPtr.

(** *** The generator [iterate] (lines 278-320) *)

(** How one run of the [try] block stops. *)
Inductive Pause :=
| Yield (value : QueryResultWithStats)
| Break.

(** Lines 280-288: the check made once, before the loop. *)
Definition iterate_prologue (ctx : StreamContext) : M unit :=
  initialErrorPtr <- chdb_streaming_result_error (streamPtr ctx) ;;
  if negb (is_null initialErrorPtr) then
    errorMessage <- new_CString initialErrorPtr None ;;
    throw (CHDBError
             ("chDB Streaming Initialization Error: " +++ errorMessage))
  else ret tt.

(** Lines 291-314: one turn of [while (true)], up to its [yield], its
    [break] or its [throw]. *)
Definition iterate_turn (ctx : StreamContext) : M Pause :=
  resultChunkPtr <- chdb_streaming_fetch_result (connPtr ctx) (streamPtr ctx) ;;
  if is_null resultChunkPtr then
    streamErrorPtr <- chdb_streaming_result_error (streamPtr ctx) ;;
    if negb (is_null streamErrorPtr) then
      errorMessage <- new_CString streamErrorPtr None ;;
      throw (CHDBError ("chDB Streaming Fetch Error: " +++ errorMessage))
    else ret Break
  else
    bufPtrInChunk <- read_ptr resultChunkPtr 0 ;;
    if is_null bufPtrInChunk then
      free_result_v2 resultChunkPtr ;;
      ret Break
    else
      chunk <- processLocalResultV2 resultChunkPtr ;;
      ret (Yield chunk).

(** Lines 316-319. *)
Definition iterate_finally (ctx : StreamContext) : M unit :=
  streamRegistry_unregister (ctx_id ctx) ;;
  chdb_destroy_result (streamPtr ctx).

Definition suspended (g : Generator) : Generator :=
  {| gen_ctx := gen_ctx g; gen_state := SuspendedYield |}.

Definition completed (g : Generator) : Generator :=
  {| gen_ctx := gen_ctx g; gen_state := Completed |}.

(** The [try] block runs on from where the generator stands: a [yield]
    suspends it inside the block, anything else leaves the block through
    [finally] and completes the generator. *)
Definition resume (g : Generator) (block : M Pause) (s : State)
  : Outcome IteratorResult * Generator * State :=
  match block s with
  | (Ret (Yield value), s1) => (Ret (IterValue value), suspended g, s1)
  | (Ret Break, s1) =>
      match iterate_finally (gen_ctx g) s1 with
      | (Ret _, s2) => (Ret IterDone, completed g, s2)
      | (Throw e, s2) => (Throw e, completed g, s2)
      end
  | (Throw e, s1) =>
      match iterate_finally (gen_ctx g) s1 with
      | (Ret _, s2) => (Throw e, completed g, s2)
      | (Throw e', s2) => (Throw e', completed g, s2)
      end
  end.

(** [g.next()] *)
Definition next (g : Generator) (s : State)
  : Outcome IteratorResult * Generator * State :=
  match gen_state g with
  | SuspendedStart =>
      resume g (iterate_prologue (gen_ctx g) ;; iterate_turn (gen_ctx g)) s
  | SuspendedYield => resume g (iterate_turn (gen_ctx g)) s
  | Completed => (Ret IterDone, g, s)
  end.

(** [g.return()], what [for...of] calls when its body leaves the loop by
    [break], [return] or [throw].  A generator that never started has not
    entered the [try] block: it completes without [finally]. *)
Definition return_ (g : Generator) (s : State)
  : Outcome IteratorResult * Generator * State :=
  match gen_state g with
  | SuspendedStart => (Ret IterDone, completed g, s)
  | SuspendedYield =>
      match iterate_finally (gen_ctx g) s with
      | (Ret _, s1) => (Ret IterDone, completed g, s1)
      | (Throw e, s1) => (Throw e, completed g, s1)
      end
  | Completed => (Ret IterDone, g, s)
  end.

(** [Connection.stream] (lines 272-338). *)
Definition Connection_stream (this : Connection) (queryString : string)
           (format : option string) : M Generator :=
  let format := format_or_default format in
  connPtr <- getConnPtr this ;;
  streamPtr <-
    query_conn_streaming connPtr (queryString +++ NUL) (format +++ NUL) ;;
  if is_null streamPtr then
    throw (CHDBError "Failed to initiate chDB streaming query.")
  else
    id <- new_object ;;
    let ctx := {| ctx_id := id; connPtr := connPtr; streamPtr := streamPtr |} in
    streamRegistry_register id (connPtr, streamPtr) id ;;
    ret {| gen_ctx := ctx; gen_state := SuspendedStart |}.

(** *** Calling a member by name

    [conn[member](...args)] on an instance of the class.  The class
    declares [getConnPtr], [query] and [stream]; [path], [params] and
    [ptr] are data fields.  A name found neither on the instance nor on
    its prototypes reads as [undefined], and calling it raises a
    [TypeError], with the message of the runtime, before anything else
    happens.  The members inherited from [Object.prototype] are outside
    this model: [None].  The runtime composes the message from the way
    the call is written at its site, so the text is an argument:
    [not_callable]. *)

Inductive Value :=
| V_pointer (p : Pointer)
| V_result (r : QueryResultWithStats)
| V_generator (g : Generator).

Definition Object_prototype : list string :=
  ["constructor"; "hasOwnProperty"; "isPrototypeOf"; "propertyIsEnumerable";
   "toLocaleString"; "toString"; "valueOf"; "__proto__";
   "__defineGetter__"; "__defineSetter__"; "__lookupGetter__";
   "__lookupSetter__"].

(** The argument at a position; a missing one is [undefined], which
    [queryString + "\0"] turns into text and for which a default
    parameter takes its default. *)
Definition argument_text (args : list string) (i : nat) : string :=
  nth i args "undefined".

Definition Connection_call (not_callable : string -> string)
           (this : Connection) (member : string) (args : list string)
  : option (M Value) :=
  if existsb (String.eqb member) Object_prototype then None
  else Some
    (if member =? "getConnPtr" then
       p <- getConnPtr this ;; ret (V_pointer p)
     else if member =? "query" then
       r <- Connection_query this (argument_text args 0) (nth_error args 1) ;;
       ret (V_result r)
     else if member =? "stream" then
       g <- Connection_stream this (argument_text args 0) (nth_error args 1) ;;
       ret (V_generator g)
     else throw (TypeError (not_callable member))).

(** A state before the program has run. *)
Definition initial (w : World) : State :=
  {| world := w; trace := []; connectionRegistry := [];
     streamRegistry := []; next_id := 0 |}.

(** The events added to the trace between two states. *)
Definition events_since (s s' : State) : list Event :=
  skipn (List.length (trace s)) (trace s').

Arguments events_since : simpl never.

(** ** Properties of the parser and of the argument list *)

(** The flag a parameter stands for, case by case: [mode] gives
    [--readonly=1] for the value [ro] and nothing otherwise, the
    separator key gives a bare [--], a key with an empty value gives
    [--key], any other pair gives [--key=value]. *)
Definition flag_of_param (kv : string * string) : list string :=
  if fst kv =? "mode" then
    if snd kv =? "ro" then ["--readonly=1"] else []
  else if fst kv =? "--" then ["--"]
  else if snd kv =? "" then ["--" +++ fst kv]
  else ["--" +++ fst kv +++ "=" +++ snd kv].

(** The pull [g.next()] started in state [s0] reaches its call of the
    native fetch in state [s]: at once when the generator stands at a
    [yield], after the check of lines 280-288 has found no error when it
    has not started yet. *)
Inductive reaches_fetch (g : Generator) : State -> State -> Prop :=
| from_yield (s : State) :
    gen_state g = SuspendedYield -> reaches_fetch g s s
| from_start (s0 : State) (w : World) :
    gen_state g = SuspendedStart ->
    lib_chdb_streaming_result_error native (world s0)
      (streamPtr (gen_ctx g)) = (0%Z, w) ->
    reaches_fetch g s0
      (log (Call_streaming_result_error (streamPtr (gen_ctx g))) w s0).

(** Every entry of [streamRegistry] was made by line 335: its token is
    the object it watches. *)
Definition stream_tokens_ok (s : State) : Prop :=
  Forall (fun r => reg_token r = Some (reg_target r)) (streamRegistry s).

(** Identities not handed out yet are not watched. *)
Definition connections_fresh (s : State) : Prop :=
  Forall (fun r => reg_target r < next_id s) (connectionRegistry s).

(** An error made by this library. *)
Definition library_error (e : JsError) : Prop :=
  instanceof_CHDBError e = true /\ name e = "CHDBError".

(** An error that the construction of a string let out. *)
Definition string_failure (e : JsError) : Prop :=
  exists w p n, mem_cstring native w p n = inl e.

(** A computation that leaves the registries alone and makes neither a
    cancel nor a destroy call. *)
Definition quiet {A} (m : M A) : Prop :=
  forall s, exists l,
    trace (snd (m s)) = trace s ++ l
    /\ count is_cancel l = 0 /\ count is_destroy l = 0
    /\ streamRegistry (snd (m s)) = streamRegistry s
    /\ connectionRegistry (snd (m s)) = connectionRegistry s.

(** A computation that raises nothing but the errors of this library
    and the failures of string construction. *)
Definition careful {A} (m : M A) : Prop :=
  forall s e, fst (m s) = Throw e -> library_error e \/ string_failure e.

(** A run raises an error with a given property. *)
Definition raises {A X} (r : Outcome A * X) (P : JsError -> Prop) : Prop :=
  exists e, fst r = Throw e /\ P e.

(** Identities not handed out yet are not watched by [streamRegistry]
    either. *)
Definition streams_fresh (s : State) : Prop :=
  Forall (fun r => reg_target r < next_id s) (streamRegistry s).

(** The three facts about the registries that the program keeps. *)
Definition registries_ok (s : State) : Prop :=
  stream_tokens_ok s /\ streams_fresh s /\ connections_fresh s.

(** An event that only looks at memory: no native call. *)
Definition is_peek (e : Event) : bool :=
  match e with
  | Read _ _ | NewCString _ _ => true
  | _ => false
  end.

(** A computation that makes no native call of one kind, hands out no
    identity and leaves the registries alone. *)
Definition avoids (f : Event -> bool) {A} (m : M A) : Prop :=
  forall s, exists l,
    trace (snd (m s)) = trace s ++ l
    /\ count f l = 0
    /\ streamRegistry (snd (m s)) = streamRegistry s
    /\ connectionRegistry (snd (m s)) = connectionRegistry s
    /\ next_id (snd (m s)) = next_id s.

(** [for (const result of g) acc = body(acc, result)], the loop of the
    test "Connection.stream() works" (index.test.ts, lines 26-29): the
    generator is pulled until it is done or raises.  The loop has no
    bound of its own; [None] is a run that outlasts the fuel. *)
Fixpoint for_of {Acc : Type} (fuel : nat)
         (body : Acc -> QueryResultWithStats -> Acc)
         (g : Generator) (acc : Acc) (s : State)
  : option (Outcome Acc * Generator * State) :=
  match fuel with
  | O => None
  | S fuel' =>
      match next g s with
      | (Ret (IterValue result), g', s') =>
          for_of fuel' body g' (body acc result) s'
      | (Ret IterDone, g', s') => Some (Ret acc, g', s')
      | (Throw e, g', s') => Some (Throw e, g', s')
      end
  end.

(** [rowsRead += result.stats.rowsRead] *)
Definition add_rowsRead (total : Z) (result : QueryResultWithStats) : Z :=
  (total + rowsRead (stats result))%Z.

Lemma push_param_flag (args : list string) (kv : string * string) :
  push_param args kv = args ++ flag_of_param kv.
Proof.
  destruct kv as [key value]; unfold push_param, flag_of_param, Js.truthy.
  cbn [fst snd].
  destruct (key =? "mode").
  - destruct (value =? "ro"); [reflexivity | now rewrite app_nil_r].
  - destruct (key =? "--"); [reflexivity |].
    rewrite negb_involutive.
    destruct (value =? ""); reflexivity.
Qed.

Lemma fold_push_param (l : list (string * string)) :
  forall args, fold_left push_param l args = args ++ flat_map flag_of_param l.
Proof.
  induction l as [| kv l IH]; intros args; cbn [fold_left flat_map].
  - now rewrite app_nil_r.
  - rewrite IH, push_param_flag, <- app_assoc. reflexivity.
Qed.

Lemma insert_by_index_perm e l :
  Permutation (Js.insert_by_index e l) (e :: l).
Proof.
  induction l as [| e' l IH]; cbn [Js.insert_by_index].
  - apply Permutation_refl.
  - destruct (fst e <=? fst e')%N.
    + apply Permutation_refl.
    + eapply Permutation_trans; [apply perm_skip, IH | apply perm_swap].
Qed.

(** [Object.entries] lists every own property once. *)
Lemma entries_perm (o : Js.Object) : Permutation (Js.entries o) o.
Proof.
  unfold Js.entries.
  induction o as [| kv o IH].
  - apply Permutation_refl.
  - unfold Js.index_entries, Js.named_entries in *.
    cbn [fold_right filter].
    destruct (Js.array_index (fst kv)) as [i |].
    + eapply Permutation_trans.
      * apply Permutation_app_tail, Permutation_map, insert_by_index_perm.
      * cbn [map snd app]. apply perm_skip, IH.
    + eapply Permutation_trans.
      * apply Permutation_sym, Permutation_middle.
      * apply perm_skip, IH.
Qed.

(** C5, as the code has it: after the prefix [file:] is cut, a remainder
    that begins with three slashes loses two of them and any other
    remainder is kept whole; the query component and the path resolution
    then work on that text. *)
Theorem file_scheme_stripped (rest : string) :
  parseConnectionString path_resolve ("file:" +++ rest)
  = parse_after_scheme path_resolve
      (if Js.startsWith rest "///" then Js.slice_from 2 rest else rest) [].
Proof.
  unfold parseConnectionString, strip_file_scheme, Js.startsWith.
  cbn. destruct rest; reflexivity.
Qed.

(** C6: the two parses of the specification, and the [--readonly=1] that
    the constructor hands to the native connect for the second one. *)
Theorem parse_examples :
  parseConnectionString path_resolve ":memory:" = (":memory:", [])
  /\ parseConnectionString path_resolve "file:///tmp/db?mode=ro"
     = ("/tmp/db", [("mode", "ro")])
  /\ connection_args "/tmp/db" [("mode", "ro")]
     = ["clickhouse"; "--path=/tmp/db"; "--readonly=1"]
  /\ forall s : State,
       let '(_, s') := Connection_new "file:///tmp/db?mode=ro" s in
       exists n argv tl,
         events_since s s' = Call_connect_chdb n argv :: tl
         /\ argv = argvPtr (buildArgv
                     (connection_args "/tmp/db" [("mode", "ro")]))
         /\ In (Some ("--readonly=1" +++ NUL)) argv.
Proof.
  split; [reflexivity |].
  split; [reflexivity |].
  split; [reflexivity |].
  intros s.
  unfold Connection_new, bind, new_object, connect_chdb.
  change (parseConnectionString path_resolve "file:///tmp/db?mode=ro")
    with ("/tmp/db", [("mode", "ro")]).
  cbn beta iota.
  destruct (lib_connect_chdb native _ _ _) as [p w] eqn:E.
  assert (T : forall s' : State,
             trace s' = trace s ++ [Call_connect_chdb
               (argc (buildArgv (connection_args "/tmp/db" [("mode", "ro")])))
               (argvPtr (buildArgv (connection_args "/tmp/db" [("mode", "ro")])))] ->
             exists n argv tl,
               events_since s s' = Call_connect_chdb n argv :: tl
               /\ argv = argvPtr (buildArgv
                           (connection_args "/tmp/db" [("mode", "ro")]))
               /\ In (Some ("--readonly=1" +++ NUL)) argv).
  { intros s' Hs'. eexists _, _, []. unfold events_since. rewrite Hs'.
    rewrite skipn_app, skipn_all, Nat.sub_diag. cbn [skipn app].
    split; [reflexivity |]. split; [reflexivity |].
    cbn. right; right; left; reflexivity. }
  destruct (is_null p); cbn; apply T; reflexivity.
Qed.

(** C7, as the code has it: the engine token, then [--path=<path>]
    unless the path is [:memory:], then the flags of the parameters in
    the order of [Object.entries], which lists each parameter once.  A
    parameter other than [mode] gives exactly one flag; [mode] gives one
    only for the value [ro]. *)
Theorem connection_args_shape (path : string) (params : Js.Object) :
  connection_args path params
  = ["clickhouse"]
    ++ (if path =? ":memory:" then [] else ["--path=" +++ path])
    ++ flat_map flag_of_param (Js.entries params)
  /\ Permutation (Js.entries params) params
  /\ (forall kv, (fst kv =? "mode") = false ->
                 List.length (flag_of_param kv) = 1)
  /\ (forall value, flag_of_param ("mode", value)
                    = if value =? "ro" then ["--readonly=1"] else []).
Proof.
  split; [| split; [apply entries_perm | split]].
  - unfold connection_args. rewrite fold_push_param.
    destruct (path =? ":memory:"); cbn [negb app]; reflexivity.
  - intros kv Hk. unfold flag_of_param. rewrite Hk.
    destruct (fst kv =? "--"); [reflexivity |].
    destruct (snd kv =? ""); reflexivity.
  - intros value. reflexivity.
Qed.

(** ** Properties of the effects *)

Lemma events_since_app (s s' : State) (l : list Event) :
  trace s' = trace s ++ l -> events_since s s' = l.
Proof.
  intros H. unfold events_since. rewrite H.
  rewrite skipn_app, skipn_all, Nat.sub_diag. reflexivity.
Qed.

(** Brings the events of a run into view: the trace of the final state
    is computed and compared with the initial one. *)
Ltac since :=
  repeat match goal with
         | |- context [events_since ?s ?s'] =>
             let l := fresh "l" in
             let H := fresh "H" in
             evar (l : list Event);
             assert (H : events_since s s' = l)
               by (apply events_since_app; cbn;
                   rewrite <- ?app_assoc; cbn; subst l; reflexivity);
             subst l; rewrite !H; clear H
         end.

(** C3: whatever the decoder does -- return a result, raise the error of
    the block, or fail while it builds a string -- the block is freed
    exactly once.  When the error field at offset 48 is not null, an
    error is raised, it is the [CHDBError] that carries the decoded
    message, and the fields at offsets 0 and 8 are not read. *)
Theorem decoder_frees_once (resultPtr : Pointer) (s : State) :
  let '(o, s') := processLocalResultV2 resultPtr s in
  let errorMessagePtr :=
    mem_ptr native (world s) resultPtr errorMessageOffset in
  count is_free (events_since s s') = 1
  /\ count (is_free_of resultPtr) (events_since s s') = 1
  /\ (errorMessagePtr <> 0%Z ->
      (exists e, o = Throw e)
      /\ count (is_read_at resultPtr bufOffset) (events_since s s') = 0
      /\ count (is_read_at resultPtr lenOffset) (events_since s s') = 0
      /\ forall msg,
           mem_cstring native (world s) errorMessagePtr None = inr msg ->
           o = Throw (CHDBError ("chDB Error: " +++ msg))).
Proof.
  unfold processLocalResultV2, try_finally, bind, read_ptr, read_u64,
    read_f64, new_CString, free_result_v2, throw, ret, is_null.
  cbn.
  destruct (mem_ptr native (world s) resultPtr errorMessageOffset =? 0)%Z
    eqn:Enull; cbn.
  - apply Z.eqb_eq in Enull.
    destruct (mem_cstring native (world s) _ (Some _)) as [x | text];
      cbn; since; unfold count; cbn; rewrite Z.eqb_refl; cbn;
      (split; [reflexivity | split; [reflexivity | intros C; now elim C]]).
  - destruct (mem_cstring native (world s) _ None) as [x | text] eqn:Emsg;
      cbn; since; unfold count; cbn; rewrite !Z.eqb_refl; cbn;
      (split; [reflexivity | split; [reflexivity | intros _]]);
      (split; [eexists; reflexivity |]);
      (split; [reflexivity | split; [reflexivity |]]);
      intros msg Hmsg; congruence.
Qed.

Lemma world_log (e : Event) (w : World) (s : State) : world (log e w s) = w.
Proof. reflexivity. Qed.

(** Unfolds the effects of a program down to the native answers. *)
Ltac run :=
  unfold Connection_stream, Connection_query, Connection_new, query,
    getConnPtr, iterate_prologue, iterate_turn, iterate_finally,
    streamRegistry_callback,
    connectionRegistry_callback, try_finally, bind, read_ptr, read_u64,
    read_f64, new_CString, free_result_v2, query_stable_v2, connect_chdb,
    close_conn, query_conn, query_conn_streaming,
    chdb_streaming_result_error, chdb_streaming_fetch_result,
    chdb_streaming_cancel_query, chdb_destroy_result,
    streamRegistry_unregister, streamRegistry_register,
    connectionRegistry_register, new_object, throw, ret;
  cbn; rewrite ?world_log.

Lemma is_null_false (p : Pointer) : p <> 0%Z -> is_null p = false.
Proof. intros H. unfold is_null. now apply Z.eqb_neq. Qed.

(** *** The failures, one by one *)

Lemma connect_failure (connectionString : string) (s : State) :
  let '(path, params) :=
    parseConnectionString path_resolve connectionString in
  let av := buildArgv (connection_args path params) in
  fst (lib_connect_chdb native (world s) (argc av) (argvPtr av)) = 0%Z ->
  fst (Connection_new connectionString s)
  = Throw (CHDBError
             ("Failed to connect to chDB connection at path: " +++ path)).
Proof.
  destruct (parseConnectionString path_resolve connectionString)
    as [path params] eqn:P.
  intros av H. run. rewrite P. cbn.
  fold av. destruct (lib_connect_chdb native (world s) _ _) as [p w].
  cbn in H. subst p. reflexivity.
Qed.

Lemma query_null_result (queryString : string) (format : option string)
      (s : State) :
  let av := buildArgv ["clickhouse"; "--multiquery";
                       "--output-format=" +++ format_or_default format;
                       "--query=" +++ queryString] in
  fst (lib_query_stable_v2 native (world s) (argc av) (argvPtr av)) = 0%Z ->
  fst (query queryString format s)
  = Throw (CHDBError
             "chDB call failed to return a result structure (null pointer).").
Proof.
  intros av H. run. fold av.
  destruct (lib_query_stable_v2 native (world s) _ _) as [p w].
  cbn in H. subst p. reflexivity.
Qed.

Lemma connection_query_null_result (this : Connection)
      (queryString : string) (format : option string) (s : State) :
  let connPtr := mem_ptr native (world s) (ptr this) 0 in
  connPtr <> 0%Z ->
  fst (lib_query_conn native (world s) connPtr (queryString +++ NUL)
         (format_or_default format +++ NUL)) = 0%Z ->
  fst (Connection_query this queryString format s)
  = Throw (CHDBError
             "chDB call failed to return a result structure (null pointer).").
Proof.
  intros connPtr Hc H. run. fold connPtr.
  rewrite (is_null_false _ Hc). cbn. rewrite ?world_log.
  destruct (lib_query_conn native (world s) _ _ _) as [p w].
  cbn in H. subst p. reflexivity.
Qed.

Lemma block_error (resultPtr : Pointer) (msg : string) (s : State) :
  let errorMessagePtr :=
    mem_ptr native (world s) resultPtr errorMessageOffset in
  errorMessagePtr <> 0%Z ->
  mem_cstring native (world s) errorMessagePtr None = inr msg ->
  fst (processLocalResultV2 resultPtr s)
  = Throw (CHDBError ("chDB Error: " +++ msg)).
Proof.
  intros e He Hmsg. unfold processLocalResultV2. run. fold e.
  rewrite (is_null_false _ He). cbn. rewrite Hmsg. reflexivity.
Qed.

Lemma stream_start_failure (this : Connection) (queryString : string)
      (format : option string) (s : State) :
  let connPtr := mem_ptr native (world s) (ptr this) 0 in
  connPtr <> 0%Z ->
  fst (lib_query_conn_streaming native (world s) connPtr
         (queryString +++ NUL) (format_or_default format +++ NUL)) = 0%Z ->
  Connection_stream this queryString format s
  = (Throw (CHDBError "Failed to initiate chDB streaming query."),
     log (Call_query_conn_streaming connPtr (queryString +++ NUL)
            (format_or_default format +++ NUL))
         (snd (lib_query_conn_streaming native (world s) connPtr
                 (queryString +++ NUL) (format_or_default format +++ NUL)))
         (log (Read (ptr this) 0) (world s) s)).
Proof.
  intros connPtr Hc H. run. fold connPtr.
  rewrite (is_null_false _ Hc). cbn. rewrite ?world_log.
  destruct (lib_query_conn_streaming native (world s) _ _ _) as [p w].
  cbn in H. subst p. reflexivity.
Qed.

Lemma closed_connection (this : Connection) (s : State) :
  mem_ptr native (world s) (ptr this) 0 = 0%Z ->
  fst (getConnPtr this s)
  = Throw (CHDBError
             "Invalid connection pointer. The connection might be corrupted or closed.").
Proof. intros H. run. rewrite H. reflexivity. Qed.

Lemma initial_stream_error (g : Generator) (msg : string) (s : State) :
  gen_state g = SuspendedStart ->
  let answer :=
    lib_chdb_streaming_result_error native (world s)
      (streamPtr (gen_ctx g)) in
  fst answer <> 0%Z ->
  mem_cstring native (snd answer) (fst answer) None = inr msg ->
  fst (fst (next g s))
  = Throw (CHDBError ("chDB Streaming Initialization Error: " +++ msg))
  /\ snd (fst (next g s)) = completed g.
Proof.
  intros Hg answer He Hmsg. unfold next, resume. rewrite Hg. run.
  fold answer. destruct answer as [e w]. cbn in *.
  rewrite (is_null_false _ He). cbn. rewrite Hmsg. cbn.
  split; reflexivity.
Qed.

Lemma next_resumes (g : Generator) (s0 s : State) :
  reaches_fetch g s0 s ->
  next g s0 = resume g (iterate_turn (gen_ctx g)) s.
Proof.
  intros [s1 Hg | s1 w Hg Hw]; unfold next; rewrite Hg; [reflexivity |].
  unfold resume, bind at 1, iterate_prologue, bind,
    chdb_streaming_result_error.
  rewrite Hw. reflexivity.
Qed.

Lemma reaches_fetch_trace (g : Generator) (s0 s : State) :
  reaches_fetch g s0 s ->
  exists before,
    trace s = trace s0 ++ before
    /\ count is_cancel before = 0 /\ count is_destroy before = 0
    /\ streamRegistry s = streamRegistry s0.
Proof.
  intros [s1 Hg | s1 w Hg Hw].
  - exists []. now rewrite app_nil_r.
  - eexists [_]. repeat split; reflexivity.
Qed.

Lemma fetch_error (g : Generator) (msg : string) (s0 s : State) :
  reaches_fetch g s0 s ->
  let fetched :=
    lib_chdb_streaming_fetch_result native (world s)
      (connPtr (gen_ctx g)) (streamPtr (gen_ctx g)) in
  let answer :=
    lib_chdb_streaming_result_error native (snd fetched)
      (streamPtr (gen_ctx g)) in
  fst fetched = 0%Z ->
  fst answer <> 0%Z ->
  mem_cstring native (snd answer) (fst answer) None = inr msg ->
  fst (fst (next g s0))
  = Throw (CHDBError ("chDB Streaming Fetch Error: " +++ msg))
  /\ snd (fst (next g s0)) = completed g.
Proof.
  intros R fetched answer Hf He Hmsg.
  rewrite (next_resumes _ _ _ R). unfold resume. run.
  subst answer. fold fetched. destruct fetched as [p w1]. cbn in *. subst p.
  cbn. rewrite ?world_log.
  destruct (lib_chdb_streaming_result_error native w1 _) as [e w2].
  cbn in *. rewrite (is_null_false _ He). cbn. rewrite ?world_log, Hmsg. cbn.
  split; reflexivity.
Qed.

Lemma chunk_error (g : Generator) (msg : string) (s0 s : State) :
  reaches_fetch g s0 s ->
  let fetched :=
    lib_chdb_streaming_fetch_result native (world s)
      (connPtr (gen_ctx g)) (streamPtr (gen_ctx g)) in
  let errorMessagePtr :=
    mem_ptr native (snd fetched) (fst fetched) errorMessageOffset in
  fst fetched <> 0%Z ->
  mem_ptr native (snd fetched) (fst fetched) 0 <> 0%Z ->
  errorMessagePtr <> 0%Z ->
  mem_cstring native (snd fetched) errorMessagePtr None = inr msg ->
  fst (fst (next g s0)) = Throw (CHDBError ("chDB Error: " +++ msg))
  /\ snd (fst (next g s0)) = completed g.
Proof.
  intros R fetched e Hp Hb He Hmsg.
  rewrite (next_resumes _ _ _ R). unfold resume, processLocalResultV2. run.
  subst e. fold fetched in Hp |- *. destruct fetched as [p w1]. cbn in *.
  rewrite (is_null_false _ Hp). cbn. rewrite ?world_log.
  rewrite (is_null_false _ Hb). cbn. rewrite ?world_log.
  rewrite (is_null_false _ He). run. rewrite Hmsg. cbn.
  split; reflexivity.
Qed.

(** *** The generator *)

(** C10: a fetched block that is not null but whose data pointer at
    offset 0 is null is freed once, and the pull ends the sequence: it
    returns [done], nothing is yielded or raised, and between the fetch
    and the end the stream is not asked for its error. *)
Theorem empty_chunk_ends_stream (g : Generator) (s0 s : State) :
  reaches_fetch g s0 s ->
  let ctx := gen_ctx g in
  let fetched :=
    lib_chdb_streaming_fetch_result native (world s)
      (connPtr ctx) (streamPtr ctx) in
  fst fetched <> 0%Z ->
  mem_ptr native (snd fetched) (fst fetched) 0 = 0%Z ->
  let '(o, g', s') := next g s0 in
  o = Ret IterDone
  /\ g' = completed g
  /\ events_since s s'
     = [Call_streaming_fetch_result (connPtr ctx) (streamPtr ctx);
        Read (fst fetched) 0;
        Call_free_result_v2 (fst fetched);
        Call_destroy_result (streamPtr ctx)]
  /\ count (is_free_of (fst fetched)) (events_since s s') = 1
  /\ count is_free (events_since s s') = 1
  /\ count is_error_check (events_since s s') = 0.
Proof.
  intros R ctx fetched Hp Hbuf.
  rewrite (next_resumes _ _ _ R). unfold resume. run. fold ctx fetched.
  destruct fetched as [p w1]. cbn in *.
  rewrite (is_null_false _ Hp). cbn. rewrite ?world_log, Hbuf. cbn.
  since. unfold count. cbn. rewrite Z.eqb_refl.
  repeat split; reflexivity.
Qed.

(** C4, as the code has it.  When the fetch returns null the stream is
    asked for its error: with an error the pull raises and the generator
    is completed, with none the pull returns [done], the generator is
    completed and every later pull returns [done] again without touching
    the native side.  When the fetch returns a block whose data pointer
    is not null, the block goes through the decoder: a decoded result is
    yielded and the generator stays suspended at its [yield], an error of
    the decoder is raised and completes the generator.  A block whose
    data pointer is null ends the sequence. *)
Theorem pull_outcomes (g : Generator) (s0 s : State) :
  reaches_fetch g s0 s ->
  let ctx := gen_ctx g in
  let fetched :=
    lib_chdb_streaming_fetch_result native (world s)
      (connPtr ctx) (streamPtr ctx) in
  let p := fst fetched in
  let answer :=
    lib_chdb_streaming_result_error native (snd fetched) (streamPtr ctx) in
  let decoded :=
    processLocalResultV2 p
      (log (Read p 0) (snd fetched)
         (log (Call_streaming_fetch_result (connPtr ctx) (streamPtr ctx))
            (snd fetched) s)) in
  let '(o, g', s') := next g s0 in
  (p = 0%Z -> fst answer <> 0%Z ->
     (exists e, o = Throw e)
     /\ g' = completed g
     /\ forall msg,
          mem_cstring native (snd answer) (fst answer) None = inr msg ->
          o = Throw (CHDBError ("chDB Streaming Fetch Error: " +++ msg)))
  /\ (p = 0%Z -> fst answer = 0%Z ->
      o = Ret IterDone
      /\ g' = completed g
      /\ forall s'', next g' s'' = (Ret IterDone, g', s''))
  /\ (p <> 0%Z -> mem_ptr native (snd fetched) p 0 <> 0%Z ->
      match fst decoded with
      | Ret chunk =>
          o = Ret (IterValue chunk) /\ g' = suspended g /\ s' = snd decoded
      | Throw e => o = Throw e /\ g' = completed g
      end)
  /\ (p <> 0%Z -> mem_ptr native (snd fetched) p 0 = 0%Z ->
      o = Ret IterDone /\ g' = completed g).
Proof.
  intros R ctx fetched p answer decoded.
  rewrite (next_resumes _ _ _ R). unfold resume.
  unfold iterate_turn, bind at 1, chdb_streaming_fetch_result.
  fold ctx fetched. subst decoded answer p.
  destruct fetched as [p w1]. cbn [fst snd].
  unfold is_null at 1. destruct (Z.eqb_spec p 0) as [Hp | Hp].
  - (* the fetch returned null *)
    unfold bind, chdb_streaming_result_error. rewrite world_log.
    destruct (lib_chdb_streaming_result_error native w1 (streamPtr ctx))
      as [e w2]. cbn [fst snd].
    unfold is_null. destruct (Z.eqb_spec e 0) as [He | He]; cbn [negb].
    + unfold ret. run.
      repeat split; intros; try congruence; reflexivity.
    + unfold new_CString, throw. rewrite world_log.
      destruct (mem_cstring native w2 e None) as [x | msg] eqn:Hmsg; run;
        (split; [intros _ _; split; [eexists; reflexivity |];
                 split; [reflexivity | intros m Hm; congruence] |]);
        repeat split; intros; congruence.
  - (* the fetch returned a block *)
    unfold bind at 1, read_ptr. rewrite world_log. cbn [fst snd].
    unfold is_null. destruct (Z.eqb_spec (mem_ptr native w1 p 0) 0)
      as [Hb | Hb].
    + run. repeat split; intros; try congruence; reflexivity.
    + unfold bind.
      destruct (processLocalResultV2 p _) as [[chunk | e] s2]; cbn [fst snd];
        [unfold ret | run];
        (split; [intros; congruence |]);
        (split; [intros; congruence |]);
        (split; [intros _ _; repeat split; reflexivity |]);
        intros; congruence.
Qed.

(** *** What the body of the generator leaves untouched *)

Lemma count_app (f : Event -> bool) (l l' : list Event) :
  count f (l ++ l') = count f l + count f l'.
Proof. unfold count. now rewrite filter_app, length_app. Qed.

Lemma quiet_ret {A} (a : A) : quiet (ret a).
Proof. intros s. exists []. cbn. now rewrite app_nil_r. Qed.

Lemma quiet_throw {A} (e : JsError) : quiet (@throw A e).
Proof. intros s. exists []. cbn. now rewrite app_nil_r. Qed.

Lemma quiet_bind {A B} (m : M A) (k : A -> M B) :
  quiet m -> (forall a, quiet (k a)) -> quiet (bind m k).
Proof.
  intros Hm Hk s. unfold bind.
  destruct (Hm s) as (l & Ht & Hc & Hd & Hs & Hr).
  destruct (m s) as [[a | e] s1]; cbn [snd] in *.
  - destruct (Hk a s1) as (l' & Ht' & Hc' & Hd' & Hs' & Hr').
    exists (l ++ l'). rewrite Ht', Ht, app_assoc, !count_app, Hc, Hd, Hc', Hd'.
    repeat split; congruence.
  - exists l. repeat split; assumption.
Qed.

Lemma quiet_try_finally {A} (body : M A) (fin : M unit) :
  quiet body -> quiet fin -> quiet (try_finally body fin).
Proof.
  intros Hb Hf s. unfold try_finally.
  destruct (Hb s) as (l & Ht & Hc & Hd & Hs & Hr).
  destruct (body s) as [o s1]; cbn [snd] in *.
  destruct (Hf s1) as (l' & Ht' & Hc' & Hd' & Hs' & Hr').
  exists (l ++ l').
  destruct (fin s1) as [[u | e] s2]; cbn [snd] in *;
    rewrite Ht', Ht, app_assoc, !count_app, Hc, Hd, Hc', Hd';
    repeat split; congruence.
Qed.

(** A call that adds one harmless event. *)
Ltac quiet_step :=
  let s := fresh "s" in
  intros s; eexists [_]; cbv beta delta
    [read_ptr read_u64 read_f64 new_CString free_result_v2
     chdb_streaming_result_error chdb_streaming_fetch_result];
  repeat match goal with
         | |- context [match ?x with _ => _ end] => destruct x
         end;
  cbn; repeat split; reflexivity.

Lemma quiet_read_ptr p o : quiet (read_ptr p o).
Proof. quiet_step. Qed.

Lemma quiet_read_u64 p o : quiet (read_u64 p o).
Proof. quiet_step. Qed.

Lemma quiet_read_f64 p o : quiet (read_f64 p o).
Proof. quiet_step. Qed.

Lemma quiet_new_CString p n : quiet (new_CString p n).
Proof. quiet_step. Qed.

Lemma quiet_free p : quiet (free_result_v2 p).
Proof. quiet_step. Qed.

Lemma quiet_error_check p : quiet (chdb_streaming_result_error p).
Proof. quiet_step. Qed.

Lemma quiet_fetch c p : quiet (chdb_streaming_fetch_result c p).
Proof. quiet_step. Qed.

Ltac quiet_all :=
  repeat match goal with
         | |- quiet (bind _ _) => apply quiet_bind; [| intros ?]
         | |- quiet (try_finally _ _) => apply quiet_try_finally
         | |- quiet (ret _) => apply quiet_ret
         | |- quiet (throw _) => apply quiet_throw
         | |- quiet (read_ptr _ _) => apply quiet_read_ptr
         | |- quiet (read_u64 _ _) => apply quiet_read_u64
         | |- quiet (read_f64 _ _) => apply quiet_read_f64
         | |- quiet (new_CString _ _) => apply quiet_new_CString
         | |- quiet (free_result_v2 _) => apply quiet_free
         | |- quiet (chdb_streaming_result_error _) =>
             apply quiet_error_check
         | |- quiet (chdb_streaming_fetch_result _ _) => apply quiet_fetch
         | |- quiet (if ?b then _ else _) => destruct b
         end.

Lemma quiet_decoder p : quiet (processLocalResultV2 p).
Proof. unfold processLocalResultV2. quiet_all. Qed.

Lemma quiet_prologue ctx : quiet (iterate_prologue ctx).
Proof. unfold iterate_prologue. quiet_all. Qed.

Lemma quiet_turn ctx : quiet (iterate_turn ctx).
Proof.
  unfold iterate_turn. quiet_all. apply quiet_decoder.
Qed.

(** *** The registries *)

Lemma take_after_unregister {H} (id : nat) (l : list (Registration H)) :
  Forall (fun r => reg_token r = Some (reg_target r)) l ->
  take_registration id (filter (fun r => negb (has_token id r)) l) = None.
Proof.
  induction 1 as [| r l Hr Hl IH]; [reflexivity |].
  cbn [filter]. unfold has_token at 1. rewrite Hr.
  destruct (Nat.eqb (reg_target r) id) eqn:E; cbn [negb]; [exact IH |].
  cbn [take_registration]. rewrite E, IH. reflexivity.
Qed.

Lemma take_fresh {H} (n : nat) (l : list (Registration H)) :
  Forall (fun r => reg_target r < n) l -> take_registration n l = None.
Proof.
  induction 1 as [| r l Hr Hl IH]; [reflexivity |].
  cbn [take_registration].
  destruct (Nat.eqb_spec (reg_target r) n); [lia | now rewrite IH].
Qed.

Lemma take_last {H} (n : nat) (l : list (Registration H))
      (r : Registration H) :
  Forall (fun r => reg_target r < n) l ->
  reg_target r = n ->
  take_registration n (l ++ [r]) = Some (r, l).
Proof.
  intros Hl Hr. induction Hl as [| r' l Hr' Hl IH]; cbn [app take_registration].
  - rewrite Hr, Nat.eqb_refl. reflexivity.
  - destruct (Nat.eqb_spec (reg_target r') n); [lia | now rewrite IH].
Qed.

Lemma finally_run (ctx : StreamContext) (s : State) :
  stream_tokens_ok s ->
  exists s',
    iterate_finally ctx s = (Ret tt, s')
    /\ trace s' = trace s ++ [Call_destroy_result (streamPtr ctx)]
    /\ streamRegistry_collect (ctx_id ctx) s' = (Ret tt, s').
Proof.
  intros Hok. eexists. split; [reflexivity |]. split; [reflexivity |].
  unfold streamRegistry_collect. cbn.
  rewrite (take_after_unregister _ _ Hok). reflexivity.
Qed.

Lemma resume_exit (g : Generator) (block : M Pause) (s : State) :
  quiet block ->
  stream_tokens_ok s ->
  let '(o, g', s') := resume g block s in
  gen_state g' = Completed ->
  exists l,
    events_since s s' = l ++ [Call_destroy_result (streamPtr (gen_ctx g))]
    /\ count is_cancel l = 0 /\ count is_destroy l = 0
    /\ streamRegistry_collect (ctx_id (gen_ctx g)) s' = (Ret tt, s').
Proof.
  intros Hq Hok. unfold resume.
  destruct (Hq s) as (l & Ht & Hc & Hd & Hs & _).
  destruct (block s) as [[[v |] | e] s1]; cbn [snd] in *.
  - discriminate.
  - assert (Hok1 : stream_tokens_ok s1)
      by (unfold stream_tokens_ok; now rewrite Hs).
    destruct (finally_run (gen_ctx g) s1 Hok1) as (s2 & -> & Ht2 & Hcol).
    intros _. exists l. repeat split; try assumption.
    apply events_since_app. now rewrite Ht2, Ht, app_assoc.
  - assert (Hok1 : stream_tokens_ok s1)
      by (unfold stream_tokens_ok; now rewrite Hs).
    destruct (finally_run (gen_ctx g) s1 Hok1) as (s2 & -> & Ht2 & Hcol).
    intros _. exists l. repeat split; try assumption.
    apply events_since_app. now rewrite Ht2, Ht, app_assoc.
Qed.

(** The callback of [streamRegistry], the other way a stream is
    released: a cancel, then a destroy. *)
Lemma registry_callback_cancels_first (held : Pointer * Pointer)
      (s : State) :
  fst (streamRegistry_callback held s) = Ret tt
  /\ events_since s (snd (streamRegistry_callback held s))
     = [Call_streaming_cancel_query (fst held) (snd held);
        Call_destroy_result (snd held)].
Proof.
  destruct held as [c st]. run. since. split; reflexivity.
Qed.

(** C2, what the code does when an iteration ends.  The consumer that
    leaves the loop early ([return_] on a generator suspended at its
    [yield]) gets one native destroy and nothing else; a pull that ends
    the sequence, by exhaustion or by an error, makes its calls and then
    one native destroy.  In both cases the entry of the registry is gone,
    so that a later collection of the context does nothing, and no native
    cancel is made: the cancel of the registry callback (line 73) has no
    counterpart in [finally] (lines 316-319).  A completed generator does
    nothing more. *)
Theorem cleanup_destroys_without_cancel (g : Generator) (s : State) :
  stream_tokens_ok s ->
  let ctx := gen_ctx g in
  (gen_state g = SuspendedYield ->
   let '(o, g', s') := return_ g s in
   o = Ret IterDone
   /\ g' = completed g
   /\ events_since s s' = [Call_destroy_result (streamPtr ctx)]
   /\ count is_cancel (events_since s s') = 0
   /\ streamRegistry_collect (ctx_id ctx) s' = (Ret tt, s'))
  /\ (gen_state g <> Completed ->
      let '(o, g', s') := next g s in
      gen_state g' = Completed ->
      exists l,
        events_since s s' = l ++ [Call_destroy_result (streamPtr ctx)]
        /\ count is_cancel (events_since s s') = 0
        /\ count is_destroy (events_since s s') = 1
        /\ streamRegistry_collect (ctx_id ctx) s' = (Ret tt, s'))
  /\ (gen_state g = Completed ->
      next g s = (Ret IterDone, g, s) /\ return_ g s = (Ret IterDone, g, s)).
Proof.
  intros Hok ctx. subst ctx. split; [| split].
  - intros Hg. unfold return_. rewrite Hg.
    destruct (finally_run (gen_ctx g) s Hok) as (s' & -> & Ht & Hcol).
    rewrite (events_since_app _ _ _ Ht).
    repeat split; try reflexivity; assumption.
  - intros Hg.
    assert (Q : forall block, quiet block ->
                let '(o, g', s') := resume g block s in
                gen_state g' = Completed ->
                exists l,
                  events_since s s'
                  = l ++ [Call_destroy_result (streamPtr (gen_ctx g))]
                  /\ count is_cancel (events_since s s') = 0
                  /\ count is_destroy (events_since s s') = 1
                  /\ streamRegistry_collect (ctx_id (gen_ctx g)) s'
                     = (Ret tt, s')).
    { intros block Hq. pose proof (resume_exit g block s Hq Hok) as R.
      destruct (resume g block s) as [[o g'] s'].
      intros Hc. destruct (R Hc) as (l & He & Hcan & Hdes & Hcol).
      exists l. rewrite He, !count_app, Hcan, Hdes.
      repeat split; try reflexivity; assumption. }
    unfold next. destruct (gen_state g) eqn:E.
    + apply Q. apply quiet_bind; [apply quiet_prologue |].
      intros _. apply quiet_turn.
    + apply Q, quiet_turn.
    + now elim Hg.
  - intros Hg. unfold next, return_. rewrite Hg. split; reflexivity.
Qed.


(** *** The errors that can come out *)

Lemma careful_ret {A} (a : A) : careful (ret a).
Proof. intros s e H. discriminate. Qed.

Lemma careful_throw {A} (text : string) : careful (@throw A (CHDBError text)).
Proof.
  intros s e H. injection H as <-. left. split; reflexivity.
Qed.

Lemma careful_bind {A B} (m : M A) (k : A -> M B) :
  careful m -> (forall a, careful (k a)) -> careful (bind m k).
Proof.
  intros Hm Hk s e. unfold bind. specialize (Hm s).
  destruct (m s) as [[a | x] s1]; cbn [fst] in *.
  - apply Hk.
  - intros H. apply Hm. injection H as <-. reflexivity.
Qed.

Lemma careful_try_finally {A} (body : M A) (fin : M unit) :
  careful body -> careful fin -> careful (try_finally body fin).
Proof.
  intros Hb Hf s e. unfold try_finally. specialize (Hb s).
  destruct (body s) as [o s1]. specialize (Hf s1).
  destruct (fin s1) as [[u | x] s2]; cbn [fst] in *.
  - intros ->. now apply Hb.
  - intros H. apply Hf. injection H as <-. reflexivity.
Qed.

Lemma careful_new_CString p n : careful (new_CString p n).
Proof.
  intros s e. unfold new_CString.
  destruct (mem_cstring native (world s) p n) as [x | text] eqn:E;
    cbn [fst]; intros H; [| discriminate].
  injection H as <-. right. now exists (world s), p, n.
Qed.

(** A native call or a raw read returns. *)
Ltac returns :=
  let s := fresh "s" in
  let e := fresh "e" in
  intros s e;
  cbv beta delta
    [read_ptr read_u64 read_f64 free_result_v2 query_stable_v2 connect_chdb
     close_conn query_conn query_conn_streaming chdb_streaming_result_error
     chdb_streaming_fetch_result chdb_streaming_cancel_query
     chdb_destroy_result new_object connectionRegistry_register
     streamRegistry_register streamRegistry_unregister];
  repeat match goal with
         | |- context [match ?x with _ => _ end] => destruct x
         end;
  cbn; discriminate.

Ltac careful_all :=
  repeat match goal with
         | |- careful (bind _ _) => apply careful_bind; [| intros ?]
         | |- careful (try_finally _ _) => apply careful_try_finally
         | |- careful (ret _) => apply careful_ret
         | |- careful (throw (CHDBError _)) => apply careful_throw
         | |- careful (new_CString _ _) => apply careful_new_CString
         | |- careful (if ?b then _ else _) => destruct b
         | |- careful (let (_, _) := ?x in _) => destruct x
         | |- careful _ => solve [returns]
         end.

Lemma careful_decoder p : careful (processLocalResultV2 p).
Proof. unfold processLocalResultV2. careful_all. Qed.

Lemma careful_query q f : careful (query q f).
Proof. unfold query. cbv zeta. careful_all. apply careful_decoder. Qed.

Lemma careful_Connection_new cs : careful (Connection_new cs).
Proof. unfold Connection_new. careful_all. Qed.

Lemma careful_getConnPtr this : careful (getConnPtr this).
Proof. unfold getConnPtr. careful_all. Qed.

Lemma careful_Connection_query this q f : careful (Connection_query this q f).
Proof.
  unfold Connection_query. cbv zeta. careful_all.
  - apply careful_getConnPtr.
  - apply careful_decoder.
Qed.

Lemma careful_Connection_stream this q f :
  careful (Connection_stream this q f).
Proof.
  unfold Connection_stream. cbv zeta. careful_all. apply careful_getConnPtr.
Qed.

Lemma careful_prologue ctx : careful (iterate_prologue ctx).
Proof. unfold iterate_prologue. careful_all. Qed.

Lemma careful_turn ctx : careful (iterate_turn ctx).
Proof. unfold iterate_turn. careful_all. apply careful_decoder. Qed.

Lemma careful_next (g : Generator) (s : State) (e : JsError) :
  fst (fst (next g s)) = Throw e -> library_error e \/ string_failure e.
Proof.
  assert (R : forall block, careful block ->
                fst (fst (resume g block s)) = Throw e ->
                library_error e \/ string_failure e).
  { intros block Hb. unfold resume. specialize (Hb s).
    destruct (block s) as [[[v |] | x] s1]; cbn; try discriminate.
    intros H. apply Hb. injection H as <-. reflexivity. }
  unfold next. destruct (gen_state g).
  - apply R. apply careful_bind; [apply careful_prologue |].
    intros _. apply careful_turn.
  - apply R, careful_turn.
  - discriminate.
Qed.

Lemma raises_intro {A X} (r : Outcome A * X) (P : JsError -> Prop)
      (e : JsError) :
  fst r = Throw e -> P e -> raises r P.
Proof. intros H HP. exists e. split; assumption. Qed.

Lemma CHDBError_library (text : string) : library_error (CHDBError text).
Proof. split; reflexivity. Qed.

(** C8, as the code has it.  The three errors built from a message of
    the engine -- the error of a result block, the error found before
    the first fetch, the error found after a null fetch -- hold that
    message unchanged, after a prefix of their own.  The three errors
    raised for a null pointer -- from connect, from a query call, from
    the start of a stream -- hold a text written by the library (with the
    resolved path for connect) and nothing of the engine. *)
Theorem error_messages :
  (forall resultPtr msg s,
      let errorMessagePtr :=
        mem_ptr native (world s) resultPtr errorMessageOffset in
      errorMessagePtr <> 0%Z ->
      mem_cstring native (world s) errorMessagePtr None = inr msg ->
      raises (processLocalResultV2 resultPtr s)
             (fun e => message e = "chDB Error: " +++ msg))
  /\ (forall g msg s,
        gen_state g = SuspendedStart ->
        let answer :=
          lib_chdb_streaming_result_error native (world s)
            (streamPtr (gen_ctx g)) in
        fst answer <> 0%Z ->
        mem_cstring native (snd answer) (fst answer) None = inr msg ->
        raises (fst (next g s))
               (fun e => message e
                         = "chDB Streaming Initialization Error: " +++ msg))
  /\ (forall g msg s0 s,
        reaches_fetch g s0 s ->
        let fetched :=
          lib_chdb_streaming_fetch_result native (world s)
            (connPtr (gen_ctx g)) (streamPtr (gen_ctx g)) in
        let answer :=
          lib_chdb_streaming_result_error native (snd fetched)
            (streamPtr (gen_ctx g)) in
        fst fetched = 0%Z ->
        fst answer <> 0%Z ->
        mem_cstring native (snd answer) (fst answer) None = inr msg ->
        raises (fst (next g s0))
               (fun e => message e = "chDB Streaming Fetch Error: " +++ msg))
  /\ (forall connectionString s,
        let parsed := parseConnectionString path_resolve connectionString in
        let av := buildArgv (connection_args (fst parsed) (snd parsed)) in
        fst (lib_connect_chdb native (world s) (argc av) (argvPtr av)) = 0%Z ->
        raises (Connection_new connectionString s)
               (fun e => message e
                         = "Failed to connect to chDB connection at path: "
                           +++ fst parsed))
  /\ (forall queryString format s,
        let av := buildArgv ["clickhouse"; "--multiquery";
                             "--output-format=" +++ format_or_default format;
                             "--query=" +++ queryString] in
        fst (lib_query_stable_v2 native (world s) (argc av) (argvPtr av))
        = 0%Z ->
        raises (query queryString format s)
               (fun e => message e
                         = "chDB call failed to return a result structure (null pointer)."))
  /\ (forall this queryString format s,
        let connPtr := mem_ptr native (world s) (ptr this) 0 in
        connPtr <> 0%Z ->
        fst (lib_query_conn native (world s) connPtr (queryString +++ NUL)
               (format_or_default format +++ NUL)) = 0%Z ->
        raises (Connection_query this queryString format s)
               (fun e => message e
                         = "chDB call failed to return a result structure (null pointer)."))
  /\ (forall this queryString format s,
        let connPtr := mem_ptr native (world s) (ptr this) 0 in
        connPtr <> 0%Z ->
        fst (lib_query_conn_streaming native (world s) connPtr
               (queryString +++ NUL) (format_or_default format +++ NUL))
        = 0%Z ->
        raises (Connection_stream this queryString format s)
               (fun e => message e
                         = "Failed to initiate chDB streaming query.")).
Proof.
  split; [| split; [| split; [| split; [| split; [| split]]]]].
  - intros p msg s e He Hmsg.
    eapply raises_intro; [apply (block_error p msg s He Hmsg) | reflexivity].
  - intros g msg s Hg answer He Hmsg.
    eapply raises_intro;
      [apply (initial_stream_error g msg s Hg He Hmsg) | reflexivity].
  - intros g msg s0 s R fetched answer Hf He Hmsg.
    eapply raises_intro;
      [apply (fetch_error g msg s0 s R Hf He Hmsg) | reflexivity].
  - intros cs s parsed av H.
    pose proof (connect_failure cs s) as F. fold parsed in F.
    destruct parsed as [path params]. cbn [fst snd] in *.
    eapply raises_intro; [apply (F H) | reflexivity].
  - intros q f s av H.
    eapply raises_intro; [apply (query_null_result q f s H) | reflexivity].
  - intros this q f s connPtr Hc H.
    eapply raises_intro;
      [apply (connection_query_null_result this q f s Hc H) | reflexivity].
  - intros this q f s connPtr Hc H.
    eapply raises_intro;
      [rewrite (stream_start_failure this q f s Hc H) | ]; reflexivity.
Qed.

(** C9, as the code has it.  Each of these failures raises an instance
    of [CHDBError], whose name is ["CHDBError"]: a null pointer from
    connect, from a query call or from the start of a stream; a result
    block with an error message that reaches the decoder, from a query
    or fetched with a data pointer that is not null; an error of the
    stream before the first fetch or after a null fetch.  The library
    makes no error of another class: whatever a public operation raises
    is such an instance, unless it is an error that the construction of
    a string let out, which passes through as it is. *)
Theorem failures_raise_CHDBError :
  (forall connectionString s,
      let parsed := parseConnectionString path_resolve connectionString in
      let av := buildArgv (connection_args (fst parsed) (snd parsed)) in
      fst (lib_connect_chdb native (world s) (argc av) (argvPtr av)) = 0%Z ->
      raises (Connection_new connectionString s) library_error)
  /\ (forall queryString format s,
        let av := buildArgv ["clickhouse"; "--multiquery";
                             "--output-format=" +++ format_or_default format;
                             "--query=" +++ queryString] in
        fst (lib_query_stable_v2 native (world s) (argc av) (argvPtr av))
        = 0%Z ->
        raises (query queryString format s) library_error)
  /\ (forall this queryString format s,
        let connPtr := mem_ptr native (world s) (ptr this) 0 in
        connPtr <> 0%Z ->
        fst (lib_query_conn native (world s) connPtr (queryString +++ NUL)
               (format_or_default format +++ NUL)) = 0%Z ->
        raises (Connection_query this queryString format s) library_error)
  /\ (forall resultPtr msg s,
        let errorMessagePtr :=
          mem_ptr native (world s) resultPtr errorMessageOffset in
        errorMessagePtr <> 0%Z ->
        mem_cstring native (world s) errorMessagePtr None = inr msg ->
        raises (processLocalResultV2 resultPtr s) library_error)
  /\ (forall this queryString format s,
        let connPtr := mem_ptr native (world s) (ptr this) 0 in
        connPtr <> 0%Z ->
        fst (lib_query_conn_streaming native (world s) connPtr
               (queryString +++ NUL) (format_or_default format +++ NUL))
        = 0%Z ->
        raises (Connection_stream this queryString format s) library_error)
  /\ (forall g msg s,
        gen_state g = SuspendedStart ->
        let answer :=
          lib_chdb_streaming_result_error native (world s)
            (streamPtr (gen_ctx g)) in
        fst answer <> 0%Z ->
        mem_cstring native (snd answer) (fst answer) None = inr msg ->
        raises (fst (next g s)) library_error)
  /\ (forall g msg s0 s,
        reaches_fetch g s0 s ->
        let fetched :=
          lib_chdb_streaming_fetch_result native (world s)
            (connPtr (gen_ctx g)) (streamPtr (gen_ctx g)) in
        let answer :=
          lib_chdb_streaming_result_error native (snd fetched)
            (streamPtr (gen_ctx g)) in
        fst fetched = 0%Z ->
        fst answer <> 0%Z ->
        mem_cstring native (snd answer) (fst answer) None = inr msg ->
        raises (fst (next g s0)) library_error)
  /\ (forall g msg s0 s,
        reaches_fetch g s0 s ->
        let fetched :=
          lib_chdb_streaming_fetch_result native (world s)
            (connPtr (gen_ctx g)) (streamPtr (gen_ctx g)) in
        let errorMessagePtr :=
          mem_ptr native (snd fetched) (fst fetched) errorMessageOffset in
        fst fetched <> 0%Z ->
        mem_ptr native (snd fetched) (fst fetched) 0 <> 0%Z ->
        errorMessagePtr <> 0%Z ->
        mem_cstring native (snd fetched) errorMessagePtr None = inr msg ->
        raises (fst (next g s0)) library_error)
  /\ (forall e,
        (forall connectionString s,
            fst (Connection_new connectionString s) = Throw e ->
            library_error e)
        /\ (forall queryString format s,
              fst (query queryString format s) = Throw e ->
              library_error e \/ string_failure e)
        /\ (forall this queryString format s,
              fst (Connection_query this queryString format s) = Throw e ->
              library_error e \/ string_failure e)
        /\ (forall this queryString format s,
              fst (Connection_stream this queryString format s) = Throw e ->
              library_error e)
        /\ (forall g s,
              fst (fst (next g s)) = Throw e ->
              library_error e \/ string_failure e)
        /\ (forall g s, fst (fst (return_ g s)) <> Throw e)).
Proof.
  split;
    [| split; [| split; [| split; [| split; [| split; [| split; [| split]]]]]]].
  - intros cs s parsed av H.
    pose proof (connect_failure cs s) as F. fold parsed in F.
    destruct parsed as [path params]. cbn [fst snd] in *.
    eapply raises_intro; [apply (F H) | apply CHDBError_library].
  - intros q f s av H.
    eapply raises_intro;
      [apply (query_null_result q f s H) | apply CHDBError_library].
  - intros this q f s connPtr Hc H.
    eapply raises_intro;
      [apply (connection_query_null_result this q f s Hc H)
      | apply CHDBError_library].
  - intros p msg s e He Hmsg.
    eapply raises_intro;
      [apply (block_error p msg s He Hmsg) | apply CHDBError_library].
  - intros this q f s connPtr Hc H.
    eapply raises_intro;
      [rewrite (stream_start_failure this q f s Hc H); reflexivity
      | apply CHDBError_library].
  - intros g msg s Hg answer He Hmsg.
    eapply raises_intro;
      [apply (initial_stream_error g msg s Hg He Hmsg)
      | apply CHDBError_library].
  - intros g msg s0 s R fetched answer Hf He Hmsg.
    eapply raises_intro;
      [apply (fetch_error g msg s0 s R Hf He Hmsg) | apply CHDBError_library].
  - intros g msg s0 s R fetched e Hp Hb He Hmsg.
    eapply raises_intro;
      [apply (chunk_error g msg s0 s R Hp Hb He Hmsg)
      | apply CHDBError_library].
  - intros e.
    split; [| split; [| split; [| split; [| split]]]].
    + intros cs s H. revert H. unfold Connection_new.
      destruct (parseConnectionString path_resolve cs) as [path params].
      run. destruct (lib_connect_chdb native (world s) _ _) as [p w]. cbn.
      destruct (is_null p); cbn; [| discriminate].
      intros H. injection H as <-. apply CHDBError_library.
    + intros q f s. apply careful_query.
    + intros this q f s. apply careful_Connection_query.
    + intros this q f s H. revert H. run.
      destruct (is_null (mem_ptr native (world s) (ptr this) 0)); cbn.
      * intros H. injection H as <-. apply CHDBError_library.
      * rewrite ?world_log.
        destruct (lib_query_conn_streaming native (world s) _ _ _) as [p w].
        cbn. destruct (is_null p); cbn; [| discriminate].
        intros H. injection H as <-. apply CHDBError_library.
    + intros g s. apply careful_next.
    + intros g s. unfold return_, iterate_finally.
      destruct (gen_state g); cbn; discriminate.
Qed.

(** ** More on the parser *)

Lemma indexOf_cons_none (c : ascii) (s : string) (m : ascii) :
  Js.indexOf (String c s) m = None <->
  Ascii.eqb c m = false /\ Js.indexOf s m = None.
Proof.
  cbn [Js.indexOf]. destruct (Ascii.eqb c m); [split; [discriminate | intros [H _]; discriminate] |].
  destruct (Js.indexOf s m); split; try discriminate; try tauto.
  intros [_ H]. discriminate.
Qed.

Lemma prefix_before_mark (x p rest : string) :
  Js.indexOf x "?" = None ->
  String.prefix x (p +++ String "?" rest) = String.prefix x p.
Proof.
  revert p. induction x as [| a x IH]; intros p Hx.
  - destruct p; reflexivity.
  - apply indexOf_cons_none in Hx. destruct Hx as [Ha Hx].
    destruct p as [| b p]; cbn.
    + destruct (ascii_dec a "?") as [-> | _]; [discriminate | reflexivity].
    + destruct (ascii_dec a b); [apply IH, Hx | reflexivity].
Qed.

Lemma prefix_length (x p : string) :
  String.prefix x p = true -> String.length x <= String.length p.
Proof.
  revert p. induction x as [| a x IH]; intros p H; cbn; [lia |].
  destruct p as [| b p]; cbn in *; [discriminate |].
  destruct (ascii_dec a b); [| discriminate].
  specialize (IH p H). lia.
Qed.

Lemma slice_from_app (n : nat) (p rest : string) :
  n <= String.length p ->
  Js.slice_from n (p +++ rest) = Js.slice_from n p +++ rest.
Proof.
  revert p. induction n as [| n IH]; intros p H; [reflexivity |].
  destruct p as [| c p]; cbn in *; [lia |]. apply IH. lia.
Qed.

Lemma indexOf_slice_from (n : nat) (p : string) (m : ascii) :
  Js.indexOf p m = None -> Js.indexOf (Js.slice_from n p) m = None.
Proof.
  revert p. induction n as [| n IH]; intros p H; [exact H |].
  destruct p as [| c p]; [reflexivity |].
  apply indexOf_cons_none in H. cbn [Js.slice_from]. apply IH, H.
Qed.

Lemma indexOf_at_mark (p rest : string) :
  Js.indexOf p "?" = None ->
  Js.indexOf (p +++ String "?" rest) "?" = Some (String.length p).
Proof.
  induction p as [| c p IH]; intros H; [reflexivity |].
  apply indexOf_cons_none in H. destruct H as [Hc Hp].
  cbn. rewrite Hc, (IH Hp). reflexivity.
Qed.

Lemma slice_to_app (p rest : string) :
  Js.slice_to (String.length p) (p +++ rest) = p.
Proof.
  induction p as [| c p IH]; cbn; [destruct rest; reflexivity |].
  now rewrite IH.
Qed.

Lemma slice_from_past_mark (p rest : string) (c : ascii) :
  Js.slice_from (String.length p + 1) (p +++ String c rest) = rest.
Proof. induction p as [| d p IH]; cbn; [reflexivity | exact IH]. Qed.

Lemma strip_before_mark (p rest : string) :
  Js.indexOf p "?" = None ->
  strip_file_scheme (p +++ String "?" rest)
  = strip_file_scheme p +++ String "?" rest
  /\ Js.indexOf (strip_file_scheme p) "?" = None.
Proof.
  intros Hp. unfold strip_file_scheme, Js.startsWith.
  rewrite (prefix_before_mark "file:" p rest eq_refl).
  destruct (String.prefix "file:" p) eqn:E1; [| split; [reflexivity | exact Hp]].
  apply prefix_length in E1.
  rewrite (slice_from_app 5 p _ E1).
  pose proof (indexOf_slice_from 5 p "?" Hp) as H5.
  rewrite (prefix_before_mark "///" _ rest eq_refl).
  destruct (String.prefix "///" (Js.slice_from 5 p)) eqn:E2;
    [| split; [reflexivity | exact H5]].
  apply prefix_length in E2.
  rewrite (slice_from_app 2 _ _ (Nat.le_trans _ _ _ (Nat.le_succ_diag_r 2) E2)).
  split; [reflexivity | apply indexOf_slice_from, H5].
Qed.

(** A text with no [?] has no query component: the parser returns what
    the handling of the scheme and the resolution make of it, and no
    parameter. *)
Lemma parse_without_query (p : string) :
  Js.indexOf p "?" = None ->
  parseConnectionString path_resolve p
  = if negb (Js.truthy p) || (p =? ":memory:") then (":memory:", [])
    else (resolve_relative path_resolve (strip_file_scheme p), []).
Proof.
  intros Hp. unfold parseConnectionString.
  destruct (negb (Js.truthy p) || (p =? ":memory:")); [reflexivity |].
  unfold parse_after_scheme, split_query.
  assert (H : Js.indexOf (strip_file_scheme p) "?" = None).
  { unfold strip_file_scheme, Js.startsWith.
    destruct (String.prefix "file:" p); [| exact Hp].
    destruct (String.prefix "///" (Js.slice_from 5 p));
      repeat apply indexOf_slice_from; exact Hp. }
  rewrite H. reflexivity.
Qed.

(** The parameters read from a query, before [udf_path] is rewritten
    (lines 154-157). *)
Lemma parse_with_query (p q : string) :
  p <> "" ->
  Js.indexOf p "?" = None ->
  parseConnectionString path_resolve (p +++ String "?" q)
  = (fst (parseConnectionString path_resolve p),
     expand_udf_path (URLSearchParams.parse q)
       (fold_left (fun params kv => Js.set params (fst kv) (snd kv))
          (URLSearchParams.parse q) [])).
Proof.
  intros Hne Hp.
  rewrite (parse_without_query p Hp).
  unfold parseConnectionString.
  assert (Ht : Js.truthy (p +++ String "?" q) = true)
    by (destruct p; reflexivity).
  assert (Hm : (p +++ String "?" q =? ":memory:") = false).
  { apply String.eqb_neq. intros E.
    pose proof (indexOf_at_mark p q Hp) as H. rewrite E in H. discriminate. }
  rewrite Ht, Hm. cbn [negb orb].
  unfold parse_after_scheme, split_query.
  destruct (strip_before_mark p q Hp) as [-> Hs].
  rewrite (indexOf_at_mark _ q Hs), slice_to_app, slice_from_past_mark.
  unfold URLSearchParams.entries.
  assert (Htp : Js.truthy p = true).
  { unfold Js.truthy. destruct p; [now elim Hne | reflexivity]. }
  rewrite Htp. cbn [negb orb].
  destruct (String.eqb_spec p ":memory:") as [-> | Hmem]; reflexivity.
Qed.


(** *** Objects as maps *)

Lemma has_own_get (o : Js.Object) (k : string) :
  Js.has_own o k = match Js.get o k with Some _ => true | None => false end.
Proof.
  induction o as [| [k' v'] o IH]; [reflexivity |].
  cbn. destruct (k' =? k); [reflexivity | exact IH].
Qed.

Lemma get_overwrite (o : Js.Object) (k v k2 : string) :
  Js.get (Js.overwrite o k v) k2
  = if k =? k2 then match Js.get o k with Some _ => Some v | None => None end
    else Js.get o k2.
Proof.
  induction o as [| [k' v'] o IH]; cbn.
  - destruct (k =? k2); reflexivity.
  - destruct (String.eqb_spec k' k) as [E | Hk]; cbn.
    + subst k'. destruct (k =? k2); reflexivity.
    + rewrite IH.
      destruct (String.eqb_spec k k2) as [E | Hk2].
      * subst k2.
        destruct (String.eqb_spec k' k); [contradiction | reflexivity].
      * destruct (k' =? k2); reflexivity.
Qed.

Lemma get_app (o l : Js.Object) (k : string) :
  Js.get (o ++ l) k
  = match Js.get o k with Some v => Some v | None => Js.get l k end.
Proof.
  induction o as [| [k' v'] o IH]; [reflexivity |].
  cbn. destruct (k' =? k); [reflexivity | exact IH].
Qed.

(** Reading back what was written: the key itself gives the new value,
    unless it is [__proto__]; every other key gives what it gave. *)
Lemma get_set (o : Js.Object) (k v k2 : string) :
  Js.get (Js.set o k v) k2
  = if (k =? k2) && negb (k =? "__proto__") then Some v else Js.get o k2.
Proof.
  unfold Js.set. destruct (k =? "__proto__") eqn:Ep.
  - rewrite andb_false_r. reflexivity.
  - rewrite andb_true_r, has_own_get.
    destruct (Js.get o k) as [x |] eqn:Eg.
    + rewrite get_overwrite, Eg. reflexivity.
    + rewrite get_app. cbn.
      destruct (String.eqb_spec k k2) as [<- | Hk]; [now rewrite Eg |].
      destruct (Js.get o k2); reflexivity.
Qed.

Lemma get_delete (o : Js.Object) (k k2 : string) :
  Js.get (Js.delete o k) k2 = if k =? k2 then None else Js.get o k2.
Proof.
  unfold Js.delete. induction o as [| [k' v'] o IH]; cbn.
  - destruct (k =? k2); reflexivity.
  - destruct (String.eqb_spec k' k) as [E | Hk]; cbn.
    + subst k'. rewrite IH. destruct (k =? k2); reflexivity.
    + rewrite IH.
      destruct (String.eqb_spec k k2) as [E | Hk2].
      * subst k2.
        destruct (String.eqb_spec k' k); [contradiction | reflexivity].
      * reflexivity.
Qed.

Lemma keys_overwrite (o : Js.Object) (k v : string) :
  map fst (Js.overwrite o k v) = map fst o.
Proof.
  induction o as [| [k' v'] o IH]; [reflexivity |].
  cbn. destruct (k' =? k); cbn; [reflexivity | now rewrite IH].
Qed.

Lemma has_own_in (o : Js.Object) (k : string) :
  Js.has_own o k = false -> ~ In k (map fst o).
Proof.
  induction o as [| [k' v'] o IH]; cbn; [tauto |].
  destruct (String.eqb_spec k' k) as [-> | Hk]; cbn; [discriminate |].
  intros H [E | HI]; [contradiction | exact (IH H HI)].
Qed.

Lemma keys_set (o : Js.Object) (k v : string) :
  NoDup (map fst o) -> NoDup (map fst (Js.set o k v)).
Proof.
  intros H. unfold Js.set.
  destruct (k =? "__proto__"); [exact H |].
  destruct (Js.has_own o k) eqn:E.
  - now rewrite keys_overwrite.
  - rewrite map_app. cbn.
    apply NoDup_app; [exact H | repeat constructor; intros [] |].
    intros x Hx [<- | []]. exact (has_own_in o k E Hx).
Qed.

Lemma keys_delete (o : Js.Object) (k : string) :
  NoDup (map fst o) -> NoDup (map fst (Js.delete o k)).
Proof.
  unfold Js.delete. induction o as [| [k' v'] o IH]; intros H; [constructor |].
  cbn in *. inversion H as [| ? ? Hn Hd]; subst.
  destruct (negb (k' =? k)); cbn; [| exact (IH Hd)].
  constructor; [| exact (IH Hd)].
  intros HI. apply Hn. apply in_map_iff in HI.
  destruct HI as (kv & <- & Hkv). apply filter_In in Hkv.
  apply in_map, Hkv.
Qed.

Lemma keys_fold_set (search : list (string * string)) (o : Js.Object) :
  NoDup (map fst o) ->
  NoDup (map fst (fold_left (fun params kv => Js.set params (fst kv) (snd kv))
                    search o)).
Proof.
  revert o. induction search as [| kv search IH]; intros o H; [exact H |].
  cbn [fold_left]. apply IH, keys_set, H.
Qed.

(** The loop of lines 155-157: a key reads as its last occurrence in
    the query. *)
Lemma get_fold_set (search : list (string * string)) (o : Js.Object)
      (k : string) :
  k <> "__proto__" ->
  Js.get (fold_left (fun params kv => Js.set params (fst kv) (snd kv))
            search o) k
  = match URLSearchParams.get (rev search) k with
    | Some v => Some v
    | None => Js.get o k
    end.
Proof.
  intros Hk. revert o.
  induction search as [| [k1 v1] search IH]; intros o; [reflexivity |].
  cbn [fold_left rev fst snd]. rewrite IH.
  assert (G : forall l, URLSearchParams.get (l ++ [(k1, v1)]) k
                        = match URLSearchParams.get l k with
                          | Some v => Some v
                          | None => if k1 =? k then Some v1 else None
                          end).
  { induction l as [| [a b] l IHl]; cbn; [reflexivity |].
    destruct (a =? k); [reflexivity | exact IHl]. }
  rewrite G. destruct (URLSearchParams.get (rev search) k); [reflexivity |].
  rewrite get_set.
  destruct (String.eqb_spec k1 k) as [-> | Hk1]; cbn; [| reflexivity].
  apply String.eqb_neq in Hk. rewrite Hk. reflexivity.
Qed.

Lemma get_expand_other (search : list (string * string)) (o : Js.Object)
      (k : string) :
  k <> "udf_path" -> k <> "--" -> k <> "user_scripts_path" ->
  k <> "user_defined_executable_functions_config" ->
  Js.get (expand_udf_path search o) k = Js.get o k.
Proof.
  intros H1 H2 H3 H4. unfold expand_udf_path.
  destruct (URLSearchParams.get search "udf_path") as [u |]; [| reflexivity].
  destruct (Js.truthy u); [| reflexivity].
  rewrite get_delete, !get_set.
  repeat match goal with
         | |- context [(?a =? k)] =>
             destruct (String.eqb_spec a k); [congruence |]
         end.
  reflexivity.
Qed.


(** X1: the query component does not change the path.  For a text [p]
    that is not empty and holds no [?], the DSN [p?q] resolves to the
    path of [p] alone, whatever the query. *)
Theorem query_keeps_path (p q : string) :
  p <> "" ->
  Js.indexOf p "?" = None ->
  fst (parseConnectionString path_resolve (p +++ "?" +++ q))
  = fst (parseConnectionString path_resolve p).
Proof.
  intros Hne Hp. change ("?" +++ q) with (String "?" q).
  rewrite (parse_with_query p q Hne Hp). reflexivity.
Qed.

(** X2: a DSN with no [?] yields no parameter, and when it begins with
    [/] it is returned as it is, without a call of [path.resolve]. *)
Theorem plain_path_has_no_params (p : string) :
  Js.indexOf p "?" = None ->
  snd (parseConnectionString path_resolve p) = []
  /\ (Js.head p = Some "/"%char ->
      parseConnectionString path_resolve p = (p, [])).
Proof.
  intros Hp. rewrite (parse_without_query p Hp). split.
  - destruct (negb (Js.truthy p) || (p =? ":memory:")); reflexivity.
  - destruct p as [| c p]; cbn [Js.head]; [discriminate |].
    intros H. injection H as ->.
    unfold strip_file_scheme, resolve_relative. cbn. reflexivity.
Qed.

(** X3: the path the parser returns is never a relative path left as it
    was: it is [:memory:], or empty, or begins with [/], or is a result
    of [path.resolve]. *)
Theorem parsed_path_is_resolved (str : string) :
  let path := fst (parseConnectionString path_resolve str) in
  path = ":memory:" \/ path = "" \/ Js.head path = Some "/"%char
  \/ exists relative, path = path_resolve relative.
Proof.
  unfold parseConnectionString.
  destruct (negb (Js.truthy str) || (str =? ":memory:")); [left; reflexivity |].
  unfold parse_after_scheme.
  destruct (split_query (strip_file_scheme str) []) as [s params].
  cbn [fst]. unfold resolve_relative, Js.truthy.
  destruct (String.eqb_spec s "") as [-> | Hs]; cbn [negb andb];
    [right; left; reflexivity |].
  destruct s as [| c s]; [now elim Hs |]. cbn [Js.head].
  destruct (Ascii.eqb_spec c "/") as [-> | Hc]; cbn [negb andb];
    [right; right; left; reflexivity |].
  destruct (String.eqb_spec (String c s) ":memory:") as [-> | Hm];
    cbn [negb]; [left; reflexivity |].
  right; right; right. eexists. reflexivity.
Qed.

(** X4: a DSN that is only a query component has the empty path, not
    [:memory:]: the constructor then passes [--path=] with nothing after
    it as its second argument. *)
Theorem query_only_dsn_has_empty_path (q : string) :
  let parsed := parseConnectionString path_resolve ("?" +++ q) in
  fst parsed = ""
  /\ exists flags,
       connection_args (fst parsed) (snd parsed)
       = "clickhouse" :: "--path=" :: flags.
Proof.
  assert (E : fst (parseConnectionString path_resolve ("?" +++ q)) = "").
  { unfold parseConnectionString, parse_after_scheme, split_query. cbn.
    reflexivity. }
  cbv zeta. split; [exact E |].
  rewrite E. unfold connection_args. rewrite fold_push_param.
  eexists. cbn. reflexivity.
Qed.

(** X5: the rewriting of [udf_path].  When the first [udf_path] of the
    query is not empty, the parameters hold no [udf_path] any more, and
    hold the separator with an empty value, [user_scripts_path] with the
    path and [user_defined_executable_functions_config] with the path
    followed by [/*.xml]. *)
Theorem udf_path_is_expanded (p q udfPath : string) :
  p <> "" ->
  Js.indexOf p "?" = None ->
  URLSearchParams.get (URLSearchParams.parse q) "udf_path" = Some udfPath ->
  udfPath <> "" ->
  let params := snd (parseConnectionString path_resolve (p +++ "?" +++ q)) in
  Js.get params "udf_path" = None
  /\ Js.get params "--" = Some ""
  /\ Js.get params "user_scripts_path" = Some udfPath
  /\ Js.get params "user_defined_executable_functions_config"
     = Some (udfPath +++ "/*.xml").
Proof.
  intros Hne Hp Hu Hnz. change ("?" +++ q) with (String "?" q).
  rewrite (parse_with_query p q Hne Hp). cbn [snd].
  unfold expand_udf_path. rewrite Hu.
  assert (Ht : Js.truthy udfPath = true).
  { unfold Js.truthy. apply String.eqb_neq in Hnz. now rewrite Hnz. }
  rewrite Ht. rewrite !get_delete, !get_set. cbn.
  repeat split; reflexivity.
Qed.

(** X6: on duplicate keys the last occurrence wins.  A key that is not
    [__proto__] and not one of those the rewriting of [udf_path] touches
    reads as its last occurrence in the query, and is absent when the
    query does not hold it. *)
Theorem last_occurrence_wins (p q k : string) :
  p <> "" ->
  Js.indexOf p "?" = None ->
  k <> "__proto__" -> k <> "udf_path" -> k <> "--" ->
  k <> "user_scripts_path" ->
  k <> "user_defined_executable_functions_config" ->
  Js.get (snd (parseConnectionString path_resolve (p +++ "?" +++ q))) k
  = URLSearchParams.get (rev (URLSearchParams.parse q)) k.
Proof.
  intros Hne Hp H0 H1 H2 H3 H4. change ("?" +++ q) with (String "?" q).
  rewrite (parse_with_query p q Hne Hp). cbn [snd].
  rewrite (get_expand_other _ _ k H1 H2 H3 H4), (get_fold_set _ _ k H0).
  destruct (URLSearchParams.get (rev (URLSearchParams.parse q)) k);
    reflexivity.
Qed.

(** X7: whatever the DSN, no key occurs twice in the parameters. *)
Theorem parsed_keys_are_unique (str : string) :
  NoDup (map fst (snd (parseConnectionString path_resolve str))).
Proof.
  unfold parseConnectionString.
  destruct (negb (Js.truthy str) || (str =? ":memory:")); [constructor |].
  unfold parse_after_scheme, split_query.
  destruct (Js.indexOf (strip_file_scheme str) "?") as [queryPos |];
    cbn [snd]; [| constructor].
  unfold expand_udf_path, URLSearchParams.entries.
  set (search := URLSearchParams.parse _).
  pose proof (keys_fold_set search [] (NoDup_nil _)) as H.
  destruct (URLSearchParams.get search "udf_path") as [u |]; [| exact H].
  destruct (Js.truthy u); [| exact H].
  apply keys_delete. repeat apply keys_set. exact H.
Qed.


(** ** More on the argument list and its marshalling *)

Lemma get_in (o : Js.Object) (k v : string) :
  Js.get o k = Some v -> In (k, v) o.
Proof.
  induction o as [| [k' v'] o IH]; cbn; [discriminate |].
  destruct (String.eqb_spec k' k) as [-> | Hk].
  - intros H. injection H as ->. left. reflexivity.
  - intros H. right. exact (IH H).
Qed.

Lemma flag_in_args (path : string) (params : Js.Object) (key value a : string) :
  Js.get params key = Some value ->
  In a (flag_of_param (key, value)) ->
  In a (connection_args path params).
Proof.
  intros Hg Ha. unfold connection_args. rewrite fold_push_param.
  apply in_or_app. right. apply in_flat_map. exists (key, value).
  split; [| exact Ha].
  apply (Permutation_in _ (Permutation_sym (entries_perm params))).
  apply get_in, Hg.
Qed.

Lemma get_unique (o : Js.Object) (k v v' : string) :
  NoDup (map fst o) -> Js.get o k = Some v -> In (k, v') o -> v' = v.
Proof.
  induction o as [| [k1 v1] o IH]; cbn; [intros _ H; discriminate |].
  intros Hn Hg Hi. inversion Hn as [| ? ? Hk1 Ho]; subst.
  destruct (String.eqb_spec k1 k) as [E | E].
  - subst k1. injection Hg as <-. destruct Hi as [Hi | Hi].
    + now injection Hi as <-.
    + elim Hk1. change k with (fst (k, v')). now apply in_map.
  - destruct Hi as [Hi | Hi]; [injection Hi as -> _; now elim E |].
    exact (IH Ho Hg Hi).
Qed.

Lemma index_entries_delete (o : Js.Object) (k : string) :
  Js.array_index k = None ->
  Js.index_entries (Js.delete o k) = Js.index_entries o.
Proof.
  intros Hk. unfold Js.index_entries, Js.delete.
  induction o as [| [k1 v1] o IH]; [reflexivity |].
  cbn [filter fold_right fst].
  destruct (String.eqb_spec k1 k) as [E | E]; cbn [negb].
  - subst k1. rewrite Hk. exact IH.
  - cbn [fold_right fst]. now rewrite IH.
Qed.

Lemma named_entries_delete (o : Js.Object) (k : string) :
  Js.named_entries (Js.delete o k)
  = filter (fun kv => negb (fst kv =? k)) (Js.named_entries o).
Proof.
  unfold Js.named_entries, Js.delete.
  induction o as [| kv o IH]; [reflexivity |].
  cbn [filter].
  destruct (negb (fst kv =? k)) eqn:E1;
    destruct (Js.array_index (fst kv)) eqn:E2; cbn [filter];
    rewrite ?E1, ?E2, IH; reflexivity.
Qed.

Lemma flat_map_without_mode (l : list (string * string)) :
  (forall kv, In kv l -> fst kv = "mode" -> flag_of_param kv = []) ->
  flat_map flag_of_param (filter (fun kv => negb (fst kv =? "mode")) l)
  = flat_map flag_of_param l.
Proof.
  induction l as [| kv l IH]; intros H; [reflexivity |].
  cbn [filter flat_map].
  destruct (String.eqb_spec (fst kv) "mode") as [E | E]; cbn [negb].
  - rewrite (H kv (or_introl eq_refl) E), IH; [reflexivity |].
    intros kv' Hi. apply H. now right.
  - cbn [flat_map]. rewrite IH; [reflexivity |].
    intros kv' Hi. apply H. now right.
Qed.

(** X8: how a parameter reaches the native argument list.  A parameter
    [mode] with the value [ro] gives [--readonly=1]; the separator key
    gives [--]; another key gives [--key] when its value is empty and
    [--key=value] when it is not.  A parameter [mode] with another value
    gives nothing: the list is the one built without it. *)
Theorem params_become_flags (path : string) (params : Js.Object)
        (key value : string) :
  Js.get params key = Some value ->
  let args := connection_args path params in
  (key = "mode" -> value = "ro" -> In "--readonly=1" args)
  /\ (key = "--" -> In "--" args)
  /\ (key <> "mode" -> key <> "--" -> value = "" -> In ("--" +++ key) args)
  /\ (key <> "mode" -> key <> "--" -> value <> "" ->
      In ("--" +++ key +++ "=" +++ value) args)
  /\ (key = "mode" -> value <> "ro" -> NoDup (map fst params) ->
      args = connection_args path (Js.delete params "mode")).
Proof.
  intros Hg args. subst args.
  split; [| split; [| split; [| split]]].
  - intros -> ->. apply (flag_in_args _ _ _ _ _ Hg). left. reflexivity.
  - intros ->. apply (flag_in_args _ _ _ _ _ Hg). left. reflexivity.
  - intros H1 H2 ->. apply (flag_in_args _ _ _ _ _ Hg).
    unfold flag_of_param. cbn [fst snd].
    apply String.eqb_neq in H1, H2. rewrite H1, H2. left. reflexivity.
  - intros H1 H2 H3. apply (flag_in_args _ _ _ _ _ Hg).
    unfold flag_of_param. cbn [fst snd].
    apply String.eqb_neq in H1, H2, H3. rewrite H1, H2, H3.
    left. reflexivity.
  - intros -> Hv Hn. unfold connection_args. rewrite !fold_push_param.
    f_equal. unfold Js.entries.
    rewrite (index_entries_delete params "mode" eq_refl),
      named_entries_delete, !flat_map_app.
    f_equal. symmetry. apply flat_map_without_mode.
    intros [k v] Hi Hk. cbn [fst] in Hk. subst k.
    unfold Js.named_entries in Hi. apply filter_In in Hi.
    destruct Hi as [Hi _].
    rewrite (get_unique params "mode" value v Hn Hg Hi).
    unfold flag_of_param. cbn [fst snd].
    apply String.eqb_neq in Hv. now rewrite Hv.
Qed.



(** ** More on the effects *)

Lemma count_peek (f : Event -> bool) (l : list Event) :
  (forall e, is_peek e = true -> f e = false) ->
  forallb is_peek l = true -> count f l = 0.
Proof.
  intros Hf. unfold count. induction l as [| e l IH]; [reflexivity |].
  cbn. intros H. apply andb_true_iff in H. destruct H as [He Hl].
  rewrite (Hf e He). exact (IH Hl).
Qed.

(** The run of the decoder, event by event: it looks at memory, then
    frees the block. *)
Lemma decoder_events (resultPtr : Pointer) (s : State) :
  exists before,
    trace (snd (processLocalResultV2 resultPtr s))
    = trace s ++ before ++ [Call_free_result_v2 resultPtr]
    /\ forallb is_peek before = true
    /\ Forall (fun e => forall q o, e = Read q o ->
                 q = resultPtr /\ In o [0; 8; 24; 32; 40; 48]%Z) before
    /\ world (snd (processLocalResultV2 resultPtr s))
       = lib_free_result_v2 native (world s) resultPtr
    /\ streamRegistry (snd (processLocalResultV2 resultPtr s))
       = streamRegistry s
    /\ connectionRegistry (snd (processLocalResultV2 resultPtr s))
       = connectionRegistry s
    /\ next_id (snd (processLocalResultV2 resultPtr s)) = next_id s.
Proof.
  unfold processLocalResultV2. run.
  destruct (is_null (mem_ptr native (world s) resultPtr errorMessageOffset));
    cbn;
    [destruct (mem_cstring native (world s) _ (Some _)) as [x | text]; cbn;
       [eexists [_; _; _; _] | eexists [_; _; _; _; _; _; _]]
    | destruct (mem_cstring native (world s) _ None) as [x | text]; cbn;
        eexists [_; _]];
    cbn; rewrite <- !app_assoc; cbn;
    (split; [reflexivity |]); (split; [reflexivity |]);
    (split; [| repeat split; reflexivity]);
    repeat first
      [ apply Forall_nil
      | apply Forall_cons;
        [ intros q o E;
          first [ discriminate
                | injection E as <- <-;
                  split;
                  [ reflexivity
                  | cbn; repeat first [left; reflexivity | right] ] ]
        | ] ].
Qed.

(** X10: in every run of the decoder the free of the block is the last
    thing that happens: before it there are only reads of the block, at
    the offsets 0, 8, 24, 32, 40 and 48 (never the internal handle at
    16), and constructions of strings; the native world changes by that
    free alone. *)
Theorem decoder_frees_last (resultPtr : Pointer) (s : State) :
  let s' := snd (processLocalResultV2 resultPtr s) in
  exists before,
    events_since s s' = before ++ [Call_free_result_v2 resultPtr]
    /\ count is_free before = 0
    /\ forallb is_peek before = true
    /\ Forall (fun e => forall q o, e = Read q o ->
                 q = resultPtr /\ In o [0; 8; 24; 32; 40; 48]%Z) before
    /\ world s' = lib_free_result_v2 native (world s) resultPtr.
Proof.
  destruct (decoder_events resultPtr s)
    as (before & Ht & Hp & Hr & Hw & _).
  exists before. cbv zeta.
  rewrite (events_since_app _ _ _ Ht).
  repeat split; try assumption.
  apply count_peek; [| exact Hp]. intros [] E; (discriminate || reflexivity).
Qed.


(** *** What the operations leave alone *)

Lemma avoids_ret (f : Event -> bool) {A} (a : A) : avoids f (ret a).
Proof. intros s. exists []. cbn. now rewrite app_nil_r. Qed.

Lemma avoids_throw (f : Event -> bool) {A} (e : JsError) :
  avoids f (@throw A e).
Proof. intros s. exists []. cbn. now rewrite app_nil_r. Qed.

Lemma avoids_bind (f : Event -> bool) {A B} (m : M A) (k : A -> M B) :
  avoids f m -> (forall a, avoids f (k a)) -> avoids f (bind m k).
Proof.
  intros Hm Hk s. unfold bind.
  destruct (Hm s) as (l & Ht & Hc & Hs & Hr & Hn).
  destruct (m s) as [[a | e] s1]; cbn [snd] in *.
  - destruct (Hk a s1) as (l' & Ht' & Hc' & Hs' & Hr' & Hn').
    exists (l ++ l'). rewrite Ht', Ht, app_assoc, count_app, Hc, Hc'.
    repeat split; congruence.
  - exists l. repeat split; assumption.
Qed.

(** A native call or a look at memory that [f] does not count. *)
Ltac avoids_step :=
  let s := fresh "s" in
  intros s; eexists [_];
  cbv beta delta
    [read_ptr read_u64 read_f64 new_CString free_result_v2 query_stable_v2
     query_conn query_conn_streaming chdb_streaming_result_error
     chdb_streaming_fetch_result];
  repeat match goal with
         | |- context [match ?x with _ => _ end] => destruct x
         end;
  cbn; repeat split; reflexivity.

Lemma avoids_decoder (f : Event -> bool) (p : Pointer) :
  (forall e, is_peek e = true -> f e = false) ->
  f (Call_free_result_v2 p) = false ->
  avoids f (processLocalResultV2 p).
Proof.
  intros Hpeek Hfree s.
  destruct (decoder_events p s) as (before & Ht & Hp & _ & _ & Hs & Hr & Hn).
  exists (before ++ [Call_free_result_v2 p]).
  rewrite count_app, (count_peek f before Hpeek Hp).
  unfold count at 1. cbn. rewrite Hfree.
  repeat split; assumption.
Qed.

Lemma avoids_getConnPtr (this : Connection) :
  avoids is_close (getConnPtr this).
Proof.
  unfold getConnPtr. apply avoids_bind; [avoids_step |].
  intros p. destruct (is_null p); [apply avoids_throw | apply avoids_ret].
Qed.

Ltac avoids_close :=
  repeat match goal with
         | |- avoids _ (bind _ _) => apply avoids_bind; [| intros ?]
         | |- avoids _ (ret _) => apply avoids_ret
         | |- avoids _ (throw _) => apply avoids_throw
         | |- avoids _ (getConnPtr _) => apply avoids_getConnPtr
         | |- avoids _ (processLocalResultV2 _) =>
             apply avoids_decoder;
             [intros [] ?; (discriminate || reflexivity) | reflexivity]
         | |- avoids _ (if ?b then _ else _) => destruct b
         | |- avoids _ _ => solve [avoids_step]
         end.

Lemma avoids_query q f : avoids is_close (query q f).
Proof. unfold query. cbv zeta. avoids_close. Qed.

Lemma avoids_Connection_query this q f :
  avoids is_close (Connection_query this q f).
Proof. unfold Connection_query. cbv zeta. avoids_close. Qed.

Lemma avoids_prologue ctx : avoids is_close (iterate_prologue ctx).
Proof. unfold iterate_prologue. avoids_close. Qed.

Lemma avoids_turn ctx : avoids is_close (iterate_turn ctx).
Proof. unfold iterate_turn. avoids_close. Qed.

(** *** The constructor and [stream], outcome by outcome *)

Lemma Connection_new_run (connectionString : string) (s : State) :
  let parsed := parseConnectionString path_resolve connectionString in
  let av := buildArgv (connection_args (fst parsed) (snd parsed)) in
  let answer := lib_connect_chdb native (world s) (argc av) (argvPtr av) in
  Connection_new connectionString s
  = if is_null (fst answer) then
      (Throw (CHDBError ("Failed to connect to chDB connection at path: "
                         +++ fst parsed)),
       {| world := snd answer;
          trace := trace s ++ [Call_connect_chdb (argc av) (argvPtr av)];
          connectionRegistry := connectionRegistry s;
          streamRegistry := streamRegistry s;
          next_id := S (next_id s) |})
    else
      (Ret {| conn_id := next_id s; path := fst parsed;
              params := snd parsed; ptr := fst answer |},
       {| world := snd answer;
          trace := trace s ++ [Call_connect_chdb (argc av) (argvPtr av)];
          connectionRegistry :=
            connectionRegistry s
            ++ [{| reg_target := next_id s; reg_held := fst answer;
                   reg_token := None |}];
          streamRegistry := streamRegistry s;
          next_id := S (next_id s) |}).
Proof.
  intros parsed av answer. unfold Connection_new.
  subst answer av parsed.
  destruct (parseConnectionString path_resolve connectionString)
    as [path params].
  run.
  destruct (lib_connect_chdb native (world s) _ _) as [p w]. cbn.
  destruct (is_null p); reflexivity.
Qed.

Lemma Connection_stream_run (this : Connection) (queryString : string)
      (format : option string) (s : State) :
  let connPtr := mem_ptr native (world s) (ptr this) 0 in
  let q := queryString +++ NUL in
  let f := format_or_default format +++ NUL in
  let answer := lib_query_conn_streaming native (world s) connPtr q f in
  Connection_stream this queryString format s
  = if is_null connPtr then
      (Throw (CHDBError
                "Invalid connection pointer. The connection might be corrupted or closed."),
       log (Read (ptr this) 0) (world s) s)
    else if is_null (fst answer) then
      (Throw (CHDBError "Failed to initiate chDB streaming query."),
       {| world := snd answer;
          trace := trace s ++ [Read (ptr this) 0;
                               Call_query_conn_streaming connPtr q f];
          connectionRegistry := connectionRegistry s;
          streamRegistry := streamRegistry s;
          next_id := next_id s |})
    else
      (Ret {| gen_ctx := {| ctx_id := next_id s; connPtr := connPtr;
                            streamPtr := fst answer |};
              gen_state := SuspendedStart |},
       {| world := snd answer;
          trace := trace s ++ [Read (ptr this) 0;
                               Call_query_conn_streaming connPtr q f];
          connectionRegistry := connectionRegistry s;
          streamRegistry :=
            streamRegistry s
            ++ [{| reg_target := next_id s;
                   reg_held := (connPtr, fst answer);
                   reg_token := Some (next_id s) |}];
          next_id := S (next_id s) |}).
Proof.
  intros connPtr q f answer. subst answer q f. run. fold connPtr.
  destruct (is_null connPtr); [reflexivity |]. cbn. rewrite ?world_log.
  destruct (lib_query_conn_streaming native (world s) _ _ _) as [p w]. cbn.
  destruct (is_null p); cbn; unfold log; cbn; rewrite <- ?app_assoc;
    reflexivity.
Qed.


(** X11: the constructor makes exactly one native call, the connect,
    and is all or nothing.  When the connect returns null nothing is
    registered; otherwise the connection holds the handle returned and
    the parse of its DSN, and the registry gains one entry that watches
    this object and holds that handle.  The stream registry is not
    touched. *)
Theorem connect_is_atomic (connectionString : string) (s : State) :
  let parsed := parseConnectionString path_resolve connectionString in
  let av := buildArgv (connection_args (fst parsed) (snd parsed)) in
  let '(o, s') := Connection_new connectionString s in
  events_since s s' = [Call_connect_chdb (argc av) (argvPtr av)]
  /\ streamRegistry s' = streamRegistry s
  /\ match o with
     | Ret this =>
         ptr this <> 0%Z
         /\ ptr this
            = fst (lib_connect_chdb native (world s) (argc av) (argvPtr av))
         /\ (path this, params this) = parsed
         /\ connectionRegistry s'
            = connectionRegistry s
              ++ [{| reg_target := conn_id this; reg_held := ptr this;
                     reg_token := None |}]
     | Throw _ => connectionRegistry s' = connectionRegistry s
     end.
Proof.
  intros parsed av. rewrite Connection_new_run. fold parsed av.
  destruct (is_null (fst (lib_connect_chdb native (world s) _ _))) eqn:E.
  - since. repeat split; reflexivity.
  - since. split; [reflexivity |]. split; [reflexivity |]. cbn.
    split; [now apply Z.eqb_neq |]. split; [reflexivity |].
    split; [now destruct parsed | reflexivity].
Qed.

(** X12: [stream] is lazy and all or nothing.  On a live connection it
    makes one native call, the start of the stream, and no fetch: the
    generator it returns has not started.  When the start returns null
    no generator is made and nothing is registered; otherwise the
    registry gains one entry, whose token is the context it watches and
    which holds the connection pointer and the stream handle. *)
Theorem stream_is_lazy (this : Connection) (queryString : string)
        (format : option string) (s : State) :
  let conn := mem_ptr native (world s) (ptr this) 0 in
  let q := queryString +++ NUL in
  let f := format_or_default format +++ NUL in
  conn <> 0%Z ->
  let '(o, s') := Connection_stream this queryString format s in
  events_since s s'
  = [Read (ptr this) 0; Call_query_conn_streaming conn q f]
  /\ connectionRegistry s' = connectionRegistry s
  /\ match o with
     | Ret g =>
         gen_state g = SuspendedStart
         /\ connPtr (gen_ctx g) = conn
         /\ streamPtr (gen_ctx g) <> 0%Z
         /\ streamPtr (gen_ctx g)
            = fst (lib_query_conn_streaming native (world s) conn q f)
         /\ streamRegistry s'
            = streamRegistry s
              ++ [{| reg_target := ctx_id (gen_ctx g);
                     reg_held := (conn, streamPtr (gen_ctx g));
                     reg_token := Some (ctx_id (gen_ctx g)) |}]
     | Throw e =>
         e = CHDBError "Failed to initiate chDB streaming query."
         /\ streamRegistry s' = streamRegistry s
     end.
Proof.
  intros c q f Hc. rewrite Connection_stream_run. fold c q f.
  rewrite (is_null_false _ Hc).
  destruct (is_null (fst (lib_query_conn_streaming native (world s) c q f)))
    eqn:E.
  - since. repeat split; reflexivity.
  - since. split; [reflexivity |]. split; [reflexivity |]. cbn.
    split; [reflexivity |]. split; [reflexivity |].
    split; [now apply Z.eqb_neq |]. split; reflexivity.
Qed.

(** X13: on a connection whose handle points to null, [query] and
    [stream] raise the error of [getConnPtr] before any native call: the
    read of the handle is all that happens, and the native world and the
    registries are as they were. *)
Theorem closed_connection_stops_early (this : Connection)
        (queryString : string) (format : option string) (s : State) :
  mem_ptr native (world s) (ptr this) 0 = 0%Z ->
  let e :=
    CHDBError
      "Invalid connection pointer. The connection might be corrupted or closed." in
  let s' :=
    {| world := world s; trace := trace s ++ [Read (ptr this) 0];
       connectionRegistry := connectionRegistry s;
       streamRegistry := streamRegistry s; next_id := next_id s |} in
  Connection_query this queryString format s = (Throw e, s')
  /\ Connection_stream this queryString format s = (Throw e, s').
Proof.
  intros H e s'. split.
  - run. rewrite H. reflexivity.
  - rewrite Connection_stream_run, H. reflexivity.
Qed.

Lemma count_free_peek (l : list Event) :
  forallb is_peek l = true -> count is_free l = 0.
Proof.
  apply count_peek. intros [] E; (discriminate || reflexivity).
Qed.

Lemma count_free_of_peek (p : Pointer) (l : list Event) :
  forallb is_peek l = true -> count (is_free_of p) l = 0.
Proof.
  apply count_peek. intros [] E; (discriminate || reflexivity).
Qed.

Lemma count_error_check_peek (l : list Event) :
  forallb is_peek l = true -> count is_error_check l = 0.
Proof.
  apply count_peek. intros [] E; (discriminate || reflexivity).
Qed.

(** The frees of a decode that follows some calls which free nothing. *)
Lemma decode_after (p : Pointer) (s0 s : State) (calls : list Event) :
  trace s = trace s0 ++ calls ->
  count is_free calls = 0 ->
  count is_error_check calls = 0 ->
  let s' := snd (processLocalResultV2 p s) in
  count is_free (events_since s0 s') = 1
  /\ count (is_free_of p) (events_since s0 s') = 1
  /\ count is_error_check (events_since s0 s') = 0.
Proof.
  intros Ht Hc He s'.
  destruct (decoder_events p s) as (before & Hd & Hp & _).
  assert (E : events_since s0 s'
              = calls ++ before ++ [Call_free_result_v2 p]).
  { apply events_since_app. subst s'. rewrite Hd, Ht, <- app_assoc.
    reflexivity. }
  rewrite E, !count_app, Hc, He, (count_free_peek _ Hp),
    (count_error_check_peek _ Hp).
  split; [reflexivity |]. split; [| reflexivity].
  assert (Hle : count (is_free_of p) calls = 0).
  { revert Hc. unfold count. clear. induction calls as [| e l IH];
      [reflexivity |].
    cbn. destruct e; cbn; try exact IH. discriminate. }
  rewrite Hle, (count_free_of_peek p _ Hp). unfold count. cbn.
  now rewrite Z.eqb_refl.
Qed.

Lemma query_run (queryString : string) (format : option string)
      (s : State) :
  let av := buildArgv ["clickhouse"; "--multiquery";
                       "--output-format=" +++ format_or_default format;
                       "--query=" +++ queryString] in
  let answer := lib_query_stable_v2 native (world s) (argc av) (argvPtr av) in
  let s1 := log (Call_query_stable_v2 (argc av) (argvPtr av)) (snd answer) s in
  query queryString format s
  = if is_null (fst answer) then
      (Throw (CHDBError
                "chDB call failed to return a result structure (null pointer)."),
       s1)
    else processLocalResultV2 (fst answer) s1.
Proof.
  intros av answer s1. subst s1 answer. unfold query. cbv zeta. fold av.
  unfold bind at 1, query_stable_v2.
  destruct (lib_query_stable_v2 native (world s) _ _) as [p w]. cbn [fst snd].
  destruct (is_null p); reflexivity.
Qed.

Lemma Connection_query_run (this : Connection) (queryString : string)
      (format : option string) (s : State) :
  let conn := mem_ptr native (world s) (ptr this) 0 in
  let q := queryString +++ NUL in
  let f := format_or_default format +++ NUL in
  let answer := lib_query_conn native (world s) conn q f in
  let s1 :=
    log (Call_query_conn conn q f) (snd answer)
        (log (Read (ptr this) 0) (world s) s) in
  conn <> 0%Z ->
  Connection_query this queryString format s
  = if is_null (fst answer) then
      (Throw (CHDBError
                "chDB call failed to return a result structure (null pointer)."),
       s1)
    else processLocalResultV2 (fst answer) s1.
Proof.
  intros conn q f answer s1 Hc. subst s1 answer q f.
  unfold Connection_query. cbv zeta.
  unfold bind at 1, getConnPtr, bind at 1, read_ptr. fold conn.
  rewrite (is_null_false _ Hc). unfold ret at 1.
  unfold bind at 1, query_conn. rewrite world_log.
  destruct (lib_query_conn native (world s) _ _ _) as [p w]. cbn [fst snd].
  destruct (is_null p); reflexivity.
Qed.

(** X14: a query frees exactly what it was given.  The one-shot [query]
    and [Connection.query] on a live connection free nothing when the
    native call returns null, and free the block returned exactly once
    when it does not, whether the decoder returns or raises. *)
Theorem query_frees_what_it_got (queryString : string)
        (format : option string) (s : State) :
  (let av := buildArgv ["clickhouse"; "--multiquery";
                        "--output-format=" +++ format_or_default format;
                        "--query=" +++ queryString] in
   let block :=
     fst (lib_query_stable_v2 native (world s) (argc av) (argvPtr av)) in
   let s' := snd (query queryString format s) in
   (block = 0%Z -> count is_free (events_since s s') = 0)
   /\ (block <> 0%Z ->
       count is_free (events_since s s') = 1
       /\ count (is_free_of block) (events_since s s') = 1))
  /\ (forall this,
        let conn := mem_ptr native (world s) (ptr this) 0 in
        let block :=
          fst (lib_query_conn native (world s) conn (queryString +++ NUL)
                 (format_or_default format +++ NUL)) in
        let s' := snd (Connection_query this queryString format s) in
        conn <> 0%Z ->
        (block = 0%Z -> count is_free (events_since s s') = 0)
        /\ (block <> 0%Z ->
            count is_free (events_since s s') = 1
            /\ count (is_free_of block) (events_since s s') = 1)).
Proof.
  split.
  - intros av block s'. subst s'. rewrite query_run. fold av block. split.
    + intros ->. cbn. since. reflexivity.
    + intros Hp. rewrite (is_null_false _ Hp).
      match goal with
      | |- context [processLocalResultV2 block ?st] =>
          destruct (decode_after block s st
                      [Call_query_stable_v2 (argc av) (argvPtr av)]
                      eq_refl eq_refl eq_refl) as (H1 & H2 & _)
      end.
      split; assumption.
  - intros this conn block s' Hc. subst s'.
    rewrite (Connection_query_run this queryString format s Hc).
    fold conn block. split.
    + intros ->. cbn. since. reflexivity.
    + intros Hp. rewrite (is_null_false _ Hp).
      match goal with
      | |- context [processLocalResultV2 block ?st] =>
          destruct (decode_after block s st
                      [Read (ptr this) 0;
                       Call_query_conn conn (queryString +++ NUL)
                         (format_or_default format +++ NUL)])
            as (H1 & H2 & _);
            [cbn; rewrite <- app_assoc; reflexivity
            | reflexivity | reflexivity |]
      end.
      split; assumption.
Qed.


(** *** The pulls, call by call *)

Lemma resume_effects (g : Generator) (block : M Pause) (s : State) :
  avoids is_close block ->
  let s' := snd (resume g block s) in
  exists l,
    trace s' = trace s ++ l
    /\ count is_close l = 0
    /\ connectionRegistry s' = connectionRegistry s
    /\ next_id s' = next_id s
    /\ (streamRegistry s' = streamRegistry s
        \/ streamRegistry s'
           = filter (fun r => negb (has_token (ctx_id (gen_ctx g)) r))
                    (streamRegistry s)).
Proof.
  intros Hb. unfold resume.
  destruct (Hb s) as (l & Ht & Hc & Hs & Hr & Hn).
  destruct (block s) as [[[v |] | e] s1]; cbn [snd] in *.
  - exists l. repeat split; try assumption. left. assumption.
  - exists (l ++ [Call_destroy_result (streamPtr (gen_ctx g))]).
    cbn. rewrite Ht, Hs, count_app, Hc, <- app_assoc.
    repeat split; try assumption. right. reflexivity.
  - exists (l ++ [Call_destroy_result (streamPtr (gen_ctx g))]).
    cbn. rewrite Ht, Hs, count_app, Hc, <- app_assoc.
    repeat split; try assumption. right. reflexivity.
Qed.

Lemma next_effects (g : Generator) (s : State) :
  let s' := snd (next g s) in
  exists l,
    trace s' = trace s ++ l
    /\ count is_close l = 0
    /\ connectionRegistry s' = connectionRegistry s
    /\ next_id s' = next_id s
    /\ (streamRegistry s' = streamRegistry s
        \/ streamRegistry s'
           = filter (fun r => negb (has_token (ctx_id (gen_ctx g)) r))
                    (streamRegistry s)).
Proof.
  unfold next. destruct (gen_state g).
  - apply resume_effects. apply avoids_bind; [apply avoids_prologue |].
    intros _. apply avoids_turn.
  - apply resume_effects, avoids_turn.
  - exists []. cbn. rewrite app_nil_r. repeat split. left. reflexivity.
Qed.

Lemma return_effects (g : Generator) (s : State) :
  let s' := snd (return_ g s) in
  exists l,
    trace s' = trace s ++ l
    /\ count is_close l = 0
    /\ connectionRegistry s' = connectionRegistry s
    /\ next_id s' = next_id s
    /\ (streamRegistry s' = streamRegistry s
        \/ streamRegistry s'
           = filter (fun r => negb (has_token (ctx_id (gen_ctx g)) r))
                    (streamRegistry s)).
Proof.
  unfold return_. destruct (gen_state g).
  - exists []. cbn. rewrite app_nil_r. repeat split. left. reflexivity.
  - eexists [_]. cbn. repeat split. right. reflexivity.
  - exists []. cbn. rewrite app_nil_r. repeat split. left. reflexivity.
Qed.

Lemma take_registration_rest {H} (target : nat) (l rest : list (Registration H))
      (r : Registration H) (P : Registration H -> Prop) :
  take_registration target l = Some (r, rest) ->
  Forall P l -> Forall P rest.
Proof.
  revert rest. induction l as [| r' l IH]; intros rest E HP; [discriminate |].
  cbn in E. inversion HP as [| ? ? Hr' Hl]; subst.
  destruct (Nat.eqb (reg_target r') target).
  - injection E as _ <-. exact Hl.
  - destruct (take_registration target l) as [[r2 rest2] |]; [| discriminate].
    injection E as <- <-. constructor; [exact Hr' | exact (IH _ eq_refl Hl)].
Qed.

Lemma stream_collect_effects (target : nat) (s : State) :
  let s' := snd (streamRegistry_collect target s) in
  exists l,
    trace s' = trace s ++ l
    /\ count is_close l = 0
    /\ connectionRegistry s' = connectionRegistry s
    /\ next_id s' = next_id s
    /\ forall P, Forall P (streamRegistry s) -> Forall P (streamRegistry s').
Proof.
  unfold streamRegistry_collect.
  destruct (take_registration target (streamRegistry s)) as [[r rest] |] eqn:E.
  - destruct (reg_held r) as [c st] eqn:Eh.
    eexists [_; _]. unfold streamRegistry_callback. run.
    rewrite <- app_assoc.
    repeat split. intros P HP. exact (take_registration_rest _ _ _ _ P E HP).
  - exists []. cbn. rewrite app_nil_r. repeat split. tauto.
Qed.

Lemma ok_same (s s' : State) :
  streamRegistry s' = streamRegistry s ->
  connectionRegistry s' = connectionRegistry s ->
  next_id s' = next_id s ->
  registries_ok s -> registries_ok s'.
Proof.
  unfold registries_ok, stream_tokens_ok, streams_fresh, connections_fresh.
  intros -> -> ->. tauto.
Qed.

Lemma ok_shrunk (s s' : State) :
  (forall P, Forall P (streamRegistry s) -> Forall P (streamRegistry s')) ->
  (forall P, Forall P (connectionRegistry s) ->
             Forall P (connectionRegistry s')) ->
  next_id s' = next_id s ->
  registries_ok s -> registries_ok s'.
Proof.
  unfold registries_ok, stream_tokens_ok, streams_fresh, connections_fresh.
  intros Hs Hc -> (H1 & H2 & H3).
  split; [apply Hs, H1 | split; [apply Hs, H2 | apply Hc, H3]].
Qed.

Lemma Forall_filter_keep {A} (P : A -> Prop) (f : A -> bool) (l : list A) :
  Forall P l -> Forall P (filter f l).
Proof.
  induction 1 as [| a l Ha Hl IH]; cbn; [constructor |].
  destruct (f a); [constructor; assumption | assumption].
Qed.

Lemma ok_after_pull (g : Generator) (s s' : State) :
  connectionRegistry s' = connectionRegistry s ->
  next_id s' = next_id s ->
  (streamRegistry s' = streamRegistry s
   \/ streamRegistry s'
      = filter (fun r => negb (has_token (ctx_id (gen_ctx g)) r))
               (streamRegistry s)) ->
  registries_ok s -> registries_ok s'.
Proof.
  intros Hr Hn [Hs | Hs] Hok.
  - exact (ok_same _ _ Hs Hr Hn Hok).
  - apply (ok_shrunk s s'); try assumption.
    + intros P HP. rewrite Hs. apply Forall_filter_keep, HP.
    + intros P HP. now rewrite Hr.
Qed.

Lemma Forall_lt_S {H} (n : nat) (l : list (Registration H)) :
  Forall (fun r => reg_target r < n) l ->
  Forall (fun r => reg_target r < S n) l.
Proof.
  intros HF. eapply Forall_impl; [| exact HF]. cbn. intros r Hlt. lia.
Qed.


(** X15: a pull frees exactly the block it fetched.  When the fetch
    returns null the pull frees nothing.  When it returns a block, the
    pull frees that block exactly once and frees nothing else -- whether
    the block is yielded, has no data, or carries an error -- and does
    not ask the stream for its error after the fetch. *)
Theorem fetched_block_is_freed_once (g : Generator) (s0 s : State) :
  reaches_fetch g s0 s ->
  let block :=
    fst (lib_chdb_streaming_fetch_result native (world s)
           (connPtr (gen_ctx g)) (streamPtr (gen_ctx g))) in
  let s' := snd (next g s0) in
  (block = 0%Z -> count is_free (events_since s s') = 0)
  /\ (block <> 0%Z ->
      count is_free (events_since s s') = 1
      /\ count (is_free_of block) (events_since s s') = 1
      /\ count is_error_check (events_since s s') = 0).
Proof.
  intros R block s'. subst s' block.
  destruct (next g s0) as [[o g'] s'] eqn:E. cbn [snd].
  rewrite (next_resumes _ _ _ R) in E. unfold resume in E.
  unfold iterate_turn, bind at 1, chdb_streaming_fetch_result in E.
  destruct (lib_chdb_streaming_fetch_result native (world s) _ _) as [p w1].
  cbn [fst snd] in *. split.
  - intros ->. revert E. run.
    destruct (lib_chdb_streaming_result_error native w1 _) as [e w2]. cbn.
    destruct (is_null e); cbn;
      [| rewrite ?world_log; destruct (mem_cstring native w2 e None); cbn];
      intros E; injection E as _ _ <-; since; reflexivity.
  - intros Hp. rewrite (is_null_false _ Hp) in E.
    unfold bind at 1, read_ptr in E. rewrite world_log in E.
    destruct (is_null (mem_ptr native w1 p 0)).
    + revert E. run. intros E. injection E as _ _ <-.
      since. unfold count. cbn. rewrite Z.eqb_refl.
      repeat split; reflexivity.
    + unfold bind in E.
      match type of E with
      | context [processLocalResultV2 p ?st] =>
          pose proof (decoder_events p st)
            as (before & Ht & Hpk & _);
          destruct (processLocalResultV2 p st) as [[r | e] sd]
      end; cbn [snd] in Ht.
      * unfold ret in E. injection E as _ _ <-.
        assert (Ev : events_since s sd
                     = [Call_streaming_fetch_result (connPtr (gen_ctx g))
                          (streamPtr (gen_ctx g)); Read p 0]
                       ++ before ++ [Call_free_result_v2 p]).
        { apply events_since_app. rewrite Ht. cbn.
          rewrite <- !app_assoc. reflexivity. }
        rewrite Ev, !count_app,
          (count_free_peek _ Hpk), (count_free_of_peek p _ Hpk),
          (count_error_check_peek _ Hpk).
        unfold count. cbn. rewrite Z.eqb_refl. repeat split; reflexivity.
      * revert E. run. intros E. injection E as _ _ <-.
        match goal with
        | |- context [events_since s ?sf] =>
            assert (Ev : events_since s sf
                         = [Call_streaming_fetch_result (connPtr (gen_ctx g))
                              (streamPtr (gen_ctx g)); Read p 0]
                           ++ before ++ [Call_free_result_v2 p]
                           ++ [Call_destroy_result (streamPtr (gen_ctx g))])
              by (apply events_since_app; cbn; rewrite Ht; cbn;
                  rewrite <- !app_assoc; reflexivity)
        end.
        rewrite Ev, !count_app, (count_free_peek _ Hpk),
          (count_free_of_peek p _ Hpk), (count_error_check_peek _ Hpk).
        unfold count. cbn. rewrite Z.eqb_refl. repeat split; reflexivity.
Qed.

(** X16: nothing but the registry closes a connection.  The one-shot
    query, the constructor, [Connection.query], [Connection.stream], a
    pull, an early exit and the collection of a stream make no native
    close: a cursor never releases the connection it borrows. *)
Theorem only_the_registry_closes (s : State) :
  (forall q f, count is_close (events_since s (snd (query q f s))) = 0)
  /\ (forall cs,
        count is_close (events_since s (snd (Connection_new cs s))) = 0)
  /\ (forall this q f,
        count is_close
          (events_since s (snd (Connection_query this q f s))) = 0)
  /\ (forall this q f,
        count is_close
          (events_since s (snd (Connection_stream this q f s))) = 0)
  /\ (forall g, count is_close (events_since s (snd (next g s))) = 0)
  /\ (forall g, count is_close (events_since s (snd (return_ g s))) = 0)
  /\ (forall target,
        count is_close
          (events_since s (snd (streamRegistry_collect target s))) = 0).
Proof.
  split; [| split; [| split; [| split; [| split; [| split]]]]].
  - intros q f. destruct (avoids_query q f s) as (l & Ht & Hc & _).
    now rewrite (events_since_app _ _ _ Ht).
  - intros cs. rewrite Connection_new_run.
    destruct (is_null _); cbn [snd]; since; reflexivity.
  - intros this q f.
    destruct (avoids_Connection_query this q f s) as (l & Ht & Hc & _).
    now rewrite (events_since_app _ _ _ Ht).
  - intros this q f. rewrite Connection_stream_run.
    destruct (is_null (mem_ptr native (world s) (ptr this) 0));
      [| destruct (is_null _)]; cbn [snd]; since; reflexivity.
  - intros g. destruct (next_effects g s) as (l & Ht & Hc & _).
    now rewrite (events_since_app _ _ _ Ht).
  - intros g. destruct (return_effects g s) as (l & Ht & Hc & _).
    now rewrite (events_since_app _ _ _ Ht).
  - intros target.
    destruct (stream_collect_effects target s) as (l & Ht & Hc & _).
    now rewrite (events_since_app _ _ _ Ht).
Qed.

(** X17: the registries stay well formed.  In a state where every entry
    of the stream registry has the object it watches as its token and no
    entry of either registry watches an identity not handed out yet --
    as in the initial state -- every operation ends in such a state: the
    one-shot query, the constructor, [Connection.query],
    [Connection.stream], a pull, an early exit, and the collection of a
    connection or of a stream. *)
Theorem registries_stay_ok :
  (forall w, registries_ok (initial w))
  /\ forall s, registries_ok s ->
       (forall q f, registries_ok (snd (query q f s)))
       /\ (forall cs, registries_ok (snd (Connection_new cs s)))
       /\ (forall this q f, registries_ok (snd (Connection_query this q f s)))
       /\ (forall this q f,
             registries_ok (snd (Connection_stream this q f s)))
       /\ (forall g, registries_ok (snd (next g s)))
       /\ (forall g, registries_ok (snd (return_ g s)))
       /\ (forall target,
             registries_ok (snd (connectionRegistry_collect target s)))
       /\ (forall target,
             registries_ok (snd (streamRegistry_collect target s))).
Proof.
  split; [intros w; repeat split; constructor |].
  intros s Hok.
  split; [| split; [| split; [| split; [| split; [| split; [| split]]]]]].
  - intros q f.
    destruct (avoids_query q f s) as (l & _ & _ & Hs & Hr & Hn).
    exact (ok_same _ _ Hs Hr Hn Hok).
  - intros cs. rewrite Connection_new_run.
    destruct Hok as (H1 & H2 & H3).
    destruct (is_null _); cbn [snd]; unfold registries_ok, stream_tokens_ok,
      streams_fresh, connections_fresh; cbn;
      (split; [exact H1 |]); (split; [apply Forall_lt_S, H2 |]).
    + apply Forall_lt_S, H3.
    + apply Forall_app. split; [apply Forall_lt_S, H3 |].
      repeat constructor.
  - intros this q f.
    destruct (avoids_Connection_query this q f s)
      as (l & _ & _ & Hs & Hr & Hn).
    exact (ok_same _ _ Hs Hr Hn Hok).
  - intros this q f. rewrite Connection_stream_run.
    destruct Hok as (H1 & H2 & H3).
    destruct (is_null (mem_ptr native (world s) (ptr this) 0));
      [| destruct (is_null _)]; cbn [snd];
      unfold registries_ok, stream_tokens_ok, streams_fresh,
        connections_fresh; cbn.
    + repeat split; assumption.
    + repeat split; assumption.
    + split; [apply Forall_app; split; [exact H1 | repeat constructor] |].
      split; [| apply Forall_lt_S, H3].
      apply Forall_app. split; [apply Forall_lt_S, H2 | repeat constructor].
  - intros g. destruct (next_effects g s) as (l & _ & _ & Hr & Hn & Hs).
    exact (ok_after_pull g _ _ Hr Hn Hs Hok).
  - intros g. destruct (return_effects g s) as (l & _ & _ & Hr & Hn & Hs).
    exact (ok_after_pull g _ _ Hr Hn Hs Hok).
  - intros target. unfold connectionRegistry_collect.
    destruct (take_registration target (connectionRegistry s))
      as [[r rest] |] eqn:E; [| exact Hok].
    apply (ok_shrunk s); cbn; try reflexivity; [tauto | | exact Hok].
    intros P HP. exact (take_registration_rest _ _ _ _ P E HP).
  - intros target.
    destruct (stream_collect_effects target s) as (l & _ & _ & Hr & Hn & Hs).
    apply (ok_shrunk s); try assumption.
    intros P HP. now rewrite Hr.
Qed.


(** X18: a stream that is never pulled is left to the registry.  On the
    generator that [stream] has just returned, [return_] does nothing at
    all: no destroy, and the entry stays in the registry.  When the
    context is then collected the callback makes a cancel and then a
    destroy, once: a second collection does nothing. *)
Theorem unstarted_stream_is_left_to_registry (this : Connection)
        (queryString : string) (format : option string)
        (s s1 : State) (g : Generator) :
  streams_fresh s ->
  Connection_stream this queryString format s = (Ret g, s1) ->
  return_ g s1 = (Ret IterDone, completed g, s1)
  /\ let '(o, s2) := streamRegistry_collect (ctx_id (gen_ctx g)) s1 in
     o = Ret tt
     /\ events_since s1 s2
        = [Call_streaming_cancel_query (connPtr (gen_ctx g))
             (streamPtr (gen_ctx g));
           Call_destroy_result (streamPtr (gen_ctx g))]
     /\ streamRegistry_collect (ctx_id (gen_ctx g)) s2 = (Ret tt, s2).
Proof.
  intros Hfresh H. rewrite Connection_stream_run in H.
  destruct (is_null (mem_ptr native (world s) (ptr this) 0));
    [discriminate |].
  destruct (is_null (fst (lib_query_conn_streaming native (world s) _ _ _)));
    [discriminate |].
  injection H as <- <-. split; [reflexivity |].
  unfold streamRegistry_collect. cbn.
  erewrite take_last; [| exact Hfresh | reflexivity].
  run. since. rewrite (take_fresh _ _ Hfresh).
  repeat split; reflexivity.
Qed.

(** One pull of a generator that is not completed: either it yields and
    nothing was cancelled, destroyed or unregistered, or it completes
    the generator with one destroy as its last call. *)
Lemma next_step (g : Generator) (s : State) :
  gen_state g <> Completed ->
  stream_tokens_ok s ->
  let '(o, g1, s1) := next g s in
  exists l,
    count is_cancel l = 0 /\ count is_destroy l = 0
    /\ match o with
       | Ret (IterValue _) =>
           g1 = suspended g /\ trace s1 = trace s ++ l
           /\ stream_tokens_ok s1
       | _ =>
           g1 = completed g
           /\ trace s1
              = trace s ++ l ++ [Call_destroy_result (streamPtr (gen_ctx g))]
           /\ streamRegistry_collect (ctx_id (gen_ctx g)) s1 = (Ret tt, s1)
       end.
Proof.
  intros Hg Hok.
  assert (Q : forall block, quiet block ->
                let '(o, g1, s1) := resume g block s in
                exists l,
                  count is_cancel l = 0 /\ count is_destroy l = 0
                  /\ match o with
                     | Ret (IterValue _) =>
                         g1 = suspended g /\ trace s1 = trace s ++ l
                         /\ stream_tokens_ok s1
                     | _ =>
                         g1 = completed g
                         /\ trace s1
                            = trace s ++ l
                              ++ [Call_destroy_result (streamPtr (gen_ctx g))]
                         /\ streamRegistry_collect (ctx_id (gen_ctx g)) s1
                            = (Ret tt, s1)
                     end).
  { intros block Hq. unfold resume.
    destruct (Hq s) as (l & Ht & Hc & Hd & Hs & _).
    assert (Hok1 : stream_tokens_ok (snd (block s)))
      by (unfold stream_tokens_ok; now rewrite Hs).
    destruct (block s) as [[[v |] | e] s1]; cbn [snd] in *.
    - exists l. repeat split; assumption.
    - destruct (finally_run (gen_ctx g) s1 Hok1) as (s2 & -> & Ht2 & Hcol).
      exists l. rewrite Ht2, Ht, <- app_assoc. repeat split; assumption.
    - destruct (finally_run (gen_ctx g) s1 Hok1) as (s2 & -> & Ht2 & Hcol).
      exists l. rewrite Ht2, Ht, <- app_assoc. repeat split; assumption. }
  unfold next. destruct (gen_state g).
  - apply Q. apply quiet_bind; [apply quiet_prologue |].
    intros _. apply quiet_turn.
  - apply Q, quiet_turn.
  - now elim Hg.
Qed.

Lemma for_of_run {Acc : Type} (body : Acc -> QueryResultWithStats -> Acc)
      (fuel : nat) :
  forall (g : Generator) (acc : Acc) (s : State)
         (r : Outcome Acc) (g' : Generator) (s' : State),
    gen_state g <> Completed ->
    stream_tokens_ok s ->
    for_of fuel body g acc s = Some (r, g', s') ->
    g' = completed g
    /\ streamRegistry_collect (ctx_id (gen_ctx g)) s' = (Ret tt, s')
    /\ exists l,
         trace s'
         = trace s ++ l ++ [Call_destroy_result (streamPtr (gen_ctx g))]
         /\ count is_cancel l = 0 /\ count is_destroy l = 0.
Proof.
  induction fuel as [| fuel IH]; intros g acc s r g' s' Hg Hok E;
    [discriminate |].
  cbn [for_of] in E. pose proof (next_step g s Hg Hok) as N.
  destruct (next g s) as [[o g1] s1].
  destruct N as (l & Hc & Hd & N).
  destruct o as [[v |] | e].
  - destruct N as (-> & Ht & Hok1).
    assert (Hs : gen_state (suspended g) <> Completed) by (cbn; discriminate).
    destruct (IH _ _ _ _ _ _ Hs Hok1 E)
      as (-> & Hcol & l' & Ht' & Hc' & Hd').
    split; [reflexivity |]. split; [exact Hcol |].
    exists (l ++ l'). cbn [gen_ctx suspended] in Ht'.
    rewrite Ht', Ht, !count_app, Hc, Hd, Hc', Hd', <- !app_assoc.
    repeat split; reflexivity.
  - destruct N as (-> & Ht & Hcol). injection E as _ <- <-.
    split; [reflexivity |]. split; [exact Hcol |].
    exists l. repeat split; assumption.
  - destruct N as (-> & Ht & Hcol). injection E as _ <- <-.
    split; [reflexivity |]. split; [exact Hcol |].
    exists l. repeat split; assumption.
Qed.

(** X19: a stream consumed to its end by [for...of] is cleaned up once.
    When the loop ends -- because the stream is exhausted or because a
    pull raised -- the generator is completed, the run has made exactly
    one native destroy, as its last call, and no cancel, and the entry of
    the registry is gone: a later collection of the context does
    nothing. *)
Theorem for_of_cleans_up {Acc : Type}
        (body : Acc -> QueryResultWithStats -> Acc) (fuel : nat)
        (g : Generator) (acc : Acc) (s : State)
        (r : Outcome Acc) (g' : Generator) (s' : State) :
  gen_state g <> Completed ->
  stream_tokens_ok s ->
  for_of fuel body g acc s = Some (r, g', s') ->
  gen_state g' = Completed
  /\ (exists l,
        events_since s s'
        = l ++ [Call_destroy_result (streamPtr (gen_ctx g))])
  /\ count is_destroy (events_since s s') = 1
  /\ count is_cancel (events_since s s') = 0
  /\ streamRegistry_collect (ctx_id (gen_ctx g)) s' = (Ret tt, s').
Proof.
  intros Hg Hok E.
  destruct (for_of_run body fuel g acc s r g' s' Hg Hok E)
    as (-> & Hcol & l & Ht & Hc & Hd).
  rewrite (events_since_app _ _ _ Ht), !count_app, Hc, Hd.
  split; [reflexivity |]. split; [exists l; reflexivity |].
  split; [reflexivity |]. split; [reflexivity | exact Hcol].
Qed.


(** X20: a stream that already holds an error at the first pull is not
    fetched from.  The pull asks for the error, builds its message,
    raises, and destroys the stream: no fetch is made, and the generator
    is completed. *)
Theorem initial_error_stops_before_fetch (g : Generator) (s : State) :
  gen_state g = SuspendedStart ->
  let answer :=
    lib_chdb_streaming_result_error native (world s)
      (streamPtr (gen_ctx g)) in
  fst answer <> 0%Z ->
  let '(o, g', s') := next g s in
  (exists e, o = Throw e)
  /\ g' = completed g
  /\ events_since s s'
     = [Call_streaming_result_error (streamPtr (gen_ctx g));
        NewCString (fst answer) None;
        Call_destroy_result (streamPtr (gen_ctx g))]
  /\ forall msg,
       mem_cstring native (snd answer) (fst answer) None = inr msg ->
       o = Throw (CHDBError
                    ("chDB Streaming Initialization Error: " +++ msg)).
Proof.
  intros Hg answer He. unfold next, resume. rewrite Hg. run.
  fold answer. destruct answer as [e w]. cbn [fst snd] in *.
  rewrite (is_null_false _ He). cbn. rewrite ?world_log.
  destruct (mem_cstring native w e None) as [x | msg]; cbn; since;
    (split; [eexists; reflexivity |]); (split; [reflexivity |]);
    (split; [reflexivity |]); intros m Hm; congruence.
Qed.

(** X21: the prefix [file:] is optional.  For a text that is not empty
    and begins neither with [file:] nor with three slashes, the DSN with
    the prefix parses to the same path and parameters as the DSN without
    it. *)
Theorem file_scheme_is_optional (rest : string) :
  rest <> "" ->
  Js.startsWith rest "file:" = false ->
  Js.startsWith rest "///" = false ->
  parseConnectionString path_resolve ("file:" +++ rest)
  = parseConnectionString path_resolve rest.
Proof.
  intros Hne Hf Hs.
  unfold parseConnectionString at 1, strip_file_scheme.
  change (Js.truthy ("file:" +++ rest)) with true.
  change ("file:" +++ rest =? ":memory:") with false.
  cbn [negb orb].
  assert (E1 : Js.startsWith ("file:" +++ rest) "file:" = true)
    by (unfold Js.startsWith; cbn; destruct rest; reflexivity).
  rewrite E1.
  change (Js.slice_from 5 ("file:" +++ rest)) with rest. rewrite Hs.
  unfold parseConnectionString, strip_file_scheme. rewrite Hf.
  assert (Ht : Js.truthy rest = true).
  { unfold Js.truthy. apply String.eqb_neq in Hne. now rewrite Hne. }
  rewrite Ht. cbn [negb orb].
  destruct (String.eqb_spec rest ":memory:") as [-> | Hm]; reflexivity.
Qed.

(** C1, as the code has it.  The class has no member [close]: the call
    raises a [TypeError] and touches nothing.  Neither the constructor
    nor any operation of the connection or of its streams -- a query, a
    stream, a pull, an early exit, the callback of the stream registry
    -- makes a native close.  The handle is released by the registry of
    connections: when the connection is collected its callback makes one
    native close, on the stored handle, and the entry is used up, so
    that collecting it again does nothing. *)
Theorem connection_closed_by_registry (connectionString : string)
        (s s1 : State) (this : Connection) :
  connections_fresh s ->
  Connection_new connectionString s = (Ret this, s1) ->
  (forall not_callable args, exists m,
      Connection_call not_callable this "close" args = Some m
      /\ forall s', exists e,
           m s' = (Throw e, s') /\ ctor e = Builtin_class "TypeError")
  /\ count is_close (events_since s s1) = 0
  /\ (forall s',
        (forall q f,
            count is_close
              (events_since s' (snd (Connection_query this q f s'))) = 0)
        /\ (forall q f,
              count is_close
                (events_since s' (snd (Connection_stream this q f s'))) = 0)
        /\ (forall g,
              count is_close (events_since s' (snd (next g s'))) = 0)
        /\ (forall g,
              count is_close (events_since s' (snd (return_ g s'))) = 0)
        /\ (forall target,
              count is_close
                (events_since s' (snd (streamRegistry_collect target s')))
              = 0))
  /\ let '(o, s2) := connectionRegistry_collect (conn_id this) s1 in
     o = Ret tt
     /\ events_since s1 s2 = [Call_close_conn (ptr this)]
     /\ count is_close (events_since s1 s2) = 1
     /\ connectionRegistry_collect (conn_id this) s2 = (Ret tt, s2).
Proof.
  intros Hfresh Hnew. split; [| split; [| split]].
  - intros text args. eexists. split; [reflexivity |].
    intros s'. eexists. split; reflexivity.
  - rewrite Connection_new_run in Hnew.
    destruct (is_null _); [discriminate |].
    injection Hnew as _ <-. since. reflexivity.
  - intros s'. split; [| split; [| split; [| split]]].
    + intros q f.
      destruct (avoids_Connection_query this q f s') as (l & Ht & Hc & _).
      now rewrite (events_since_app _ _ _ Ht).
    + intros q f. rewrite Connection_stream_run.
      destruct (is_null (mem_ptr native (world s') (ptr this) 0));
        [| destruct (is_null _)]; cbn [snd]; since; reflexivity.
    + intros g. destruct (next_effects g s') as (l & Ht & Hc & _).
      now rewrite (events_since_app _ _ _ Ht).
    + intros g. destruct (return_effects g s') as (l & Ht & Hc & _).
      now rewrite (events_since_app _ _ _ Ht).
    + intros target.
      destruct (stream_collect_effects target s') as (l & Ht & Hc & _).
      now rewrite (events_since_app _ _ _ Ht).
  - revert Hnew. unfold Connection_new.
    destruct (parseConnectionString path_resolve connectionString)
      as [path params].
    run.
    destruct (lib_connect_chdb native (world s) _ _) as [p w]. cbn.
    destruct (is_null p); [discriminate |].
    intros Hnew. injection Hnew as <- <-. cbn.
    unfold connectionRegistry_collect. cbn.
    erewrite take_last; [| exact Hfresh | reflexivity].
    run. since.
    rewrite (take_fresh _ _ Hfresh).
    repeat split; reflexivity.
Qed.

End Program.

(** ** The program on the scripted module *)

(** C1, as stated, fails: on a connection just opened, [close()] raises
    a [TypeError], whatever the text the runtime gives it, and no native
    close is made. *)
Lemma close_raises_TypeError :
  exists this s1,
    Connection_new Script.resolve Script.native ":memory:"
      (initial (Script.healthy [])) = (Ret this, s1)
    /\ forall text, exists m e,
         Connection_call Script.native text this "close" [] = Some m
         /\ fst (m s1) = Throw e
         /\ ctor e = Builtin_class "TypeError"
         /\ count is_close (trace (snd (m s1))) = 0.
Proof.
  eexists _, _.
  split; [vm_compute; reflexivity |].
  intros text. eexists _, _.
  split; [reflexivity |]. split; [reflexivity |]. split; reflexivity.
Qed.

(** A connection opened at [:memory:]: [conn.close()] raises, and the
    collection makes one native close and leaves an empty registry. *)
Lemma connection_closed_by_registry_witness :
  let s := initial (Script.healthy []) in
  let this :=
    {| conn_id := 0; path := ":memory:"; params := [];
       ptr := Script.handle |} in
  let s1 :=
    {| world := Script.healthy [];
       trace := [Call_connect_chdb 1 [Some ("clickhouse" +++ NUL); None]];
       connectionRegistry :=
         [{| reg_target := 0; reg_held := Script.handle;
             reg_token := None |}];
       streamRegistry := [];
       next_id := 1 |} in
  connections_fresh s
  /\ Connection_new Script.resolve Script.native ":memory:" s = (Ret this, s1)
  /\ fst (connectionRegistry_collect Script.native 0 s1) = Ret tt
  /\ trace (snd (connectionRegistry_collect Script.native 0 s1))
     = [Call_connect_chdb 1 [Some ("clickhouse" +++ NUL); None];
        Call_close_conn Script.handle]
  /\ connectionRegistry
       (snd (connectionRegistry_collect Script.native 0 s1)) = []
  /\ exists m e,
       Connection_call Script.native Script.not_callable this "close" []
       = Some m
       /\ m s1 = (Throw e, s1)
       /\ ctor e = Builtin_class "TypeError".
Proof.
  intros s this s1.
  assert (Hf : connections_fresh s) by constructor.
  assert (Hn : Connection_new Script.resolve Script.native ":memory:" s
               = (Ret this, s1)) by reflexivity.
  split; [exact Hf |]. split; [exact Hn |].
  pose proof (connection_closed_by_registry _ _ _ _ _ _ Hf Hn)
    as (Hcall & _ & _ & H).
  destruct (connectionRegistry_collect Script.native (conn_id this) s1)
    as [o s2] eqn:E.
  destruct H as (Ho & _ & _ & _).
  change (connectionRegistry_collect Script.native 0 s1) with
    (connectionRegistry_collect Script.native (conn_id this) s1).
  rewrite E. cbn [fst snd].
  split; [exact Ho |].
  vm_compute in E. injection E as _ <-.
  split; [reflexivity |]. split; [reflexivity |].
  destruct (Hcall Script.not_callable []) as (m & Hm & Hr).
  destruct (Hr s1) as (e & He & Hc).
  exists m, e. split; [exact Hm |]. split; [exact He | exact Hc].
Defined.

(** C2 on the input where it fails: a stream of three blocks left after
    the first.  The whole run makes one destroy and no cancel. *)
Lemma cleanup_destroys_without_cancel_witness :
  let g :=
    {| gen_ctx := {| ctx_id := 1; connPtr := Script.conn;
                     streamPtr := Script.cursor |};
       gen_state := SuspendedStart |} in
  let s :=
    {| world := Script.healthy
                  [Script.block_ok; Script.block_ok; Script.block_ok];
       trace := [];
       connectionRegistry := [];
       streamRegistry :=
         [{| reg_target := 1; reg_held := (Script.conn, Script.cursor);
             reg_token := Some 1 |}];
       next_id := 2 |} in
  let '(o1, g1, s1) := next Script.native g s in
  let '(o2, g2, s2) := return_ Script.native g1 s1 in
  stream_tokens_ok s1
  /\ gen_state g1 = SuspendedYield
  /\ (exists chunk, o1 = Ret (IterValue chunk))
  /\ o2 = Ret IterDone
  /\ gen_state g2 = Completed
  /\ events_since s1 s2 = [Call_destroy_result Script.cursor]
  /\ count is_cancel (trace s2) = 0
  /\ count is_destroy (trace s2) = 1
  /\ streamRegistry s2 = [].
Proof.
  intros g s.
  destruct (next Script.native g s) as [[o1 g1] s1] eqn:E1.
  vm_compute in E1. injection E1 as <- <- <-.
  match goal with
  | |- context [return_ _ ?g1 ?s1] =>
      assert (Hok : stream_tokens_ok s1) by (repeat constructor);
      pose proof (cleanup_destroys_without_cancel Script.native g1 s1 Hok)
        as [H _];
      specialize (H eq_refl);
      destruct (return_ Script.native g1 s1) as [[o2 g2] s2] eqn:E2
  end.
  destruct H as (Ho & Hg & He & _ & _).
  split; [exact Hok |]. split; [reflexivity |].
  split; [eexists; reflexivity |].
  split; [exact Ho |]. split; [rewrite Hg; reflexivity |].
  split; [exact He |].
  vm_compute in E2. injection E2 as _ _ <-.
  split; [reflexivity |]. split; reflexivity.
Defined.

(** The decoder on the block that carries the message [boom]. *)
Lemma decoder_frees_once_witness :
  let s := initial (Script.healthy []) in
  mem_ptr Script.native (world s) Script.block_error errorMessageOffset
  <> 0%Z
  /\ fst (processLocalResultV2 Script.native Script.block_error s)
     = Throw (CHDBError "chDB Error: boom")
  /\ trace (snd (processLocalResultV2 Script.native Script.block_error s))
     = [Read Script.block_error 48; NewCString Script.error_text None;
        Call_free_result_v2 Script.block_error].
Proof.
  intros s.
  assert (Hp : mem_ptr Script.native (world s) Script.block_error
                 errorMessageOffset <> 0%Z) by (vm_compute; discriminate).
  split; [exact Hp |].
  pose proof (decoder_frees_once Script.native Script.block_error s) as H.
  destruct (processLocalResultV2 Script.native Script.block_error s)
    as [o s'] eqn:E.
  destruct H as (_ & _ & H). destruct (H Hp) as (_ & _ & _ & Hmsg).
  cbn [fst snd]. split; [exact (Hmsg "boom" eq_refl) |].
  vm_compute in E. injection E as _ <-. reflexivity.
Defined.

(** C4, as stated, fails: a block that is not null need not be yielded.
    The scripted stream hands out a block without data; the pull returns
    [done]. *)
Lemma empty_block_is_not_yielded :
  ~ (forall (g : Generator) (s : @State Script.World),
        gen_state g = SuspendedYield ->
        fst (lib_chdb_streaming_fetch_result Script.native (world s)
               (connPtr (gen_ctx g)) (streamPtr (gen_ctx g))) <> 0%Z ->
        exists chunk,
          fst (fst (next Script.native g s)) = Ret (IterValue chunk)
          /\ gen_state (snd (fst (next Script.native g s))) = SuspendedYield).
Proof.
  intros claim.
  destruct (claim
              {| gen_ctx := {| ctx_id := 1; connPtr := Script.conn;
                               streamPtr := Script.cursor |};
                 gen_state := SuspendedYield |}
              (initial (Script.healthy [Script.block_empty]))
              eq_refl)
    as (chunk & H & _).
  - vm_compute. discriminate.
  - vm_compute in H. discriminate.
Qed.

(** A pull on a stream with one block to deliver. *)
Lemma pull_outcomes_witness :
  let g :=
    {| gen_ctx := {| ctx_id := 1; connPtr := Script.conn;
                     streamPtr := Script.cursor |};
       gen_state := SuspendedYield |} in
  let s := initial (Script.healthy [Script.block_ok]) in
  reaches_fetch Script.native g s s
  /\ (exists chunk s',
        next Script.native g s = (Ret (IterValue chunk), suspended g, s')
        /\ rowsRead (stats chunk) = 1%Z)
  /\ forall s', next Script.native (completed g) s'
                = (Ret IterDone, completed g, s').
Proof.
  intros g s.
  assert (R : reaches_fetch Script.native g s s) by (apply from_yield; reflexivity).
  split; [exact R |].
  pose proof (pull_outcomes Script.native g s s R) as H.
  cbv zeta in H.
  destruct (next Script.native g s) as [[o g'] s'] eqn:E.
  destruct H as (_ & _ & H & _).
  assert (Hp : fst (lib_chdb_streaming_fetch_result Script.native (world s)
                      (connPtr (gen_ctx g)) (streamPtr (gen_ctx g)))
               <> 0%Z) by (vm_compute; discriminate).
  assert (Hb : mem_ptr Script.native
                 (snd (lib_chdb_streaming_fetch_result Script.native
                         (world s) (connPtr (gen_ctx g))
                         (streamPtr (gen_ctx g))))
                 (fst (lib_chdb_streaming_fetch_result Script.native
                         (world s) (connPtr (gen_ctx g))
                         (streamPtr (gen_ctx g)))) 0
               <> 0%Z) by (vm_compute; discriminate).
  specialize (H Hp Hb).
  match type of H with
  | match fst ?d with _ => _ end =>
      destruct d as [[chunk | e] sd] eqn:D; cbn [fst snd] in H;
        vm_compute in D; [| discriminate]
  end.
  destruct H as (-> & -> & ->).
  injection D as <- <-.
  split; [eexists _, _; split; reflexivity |].
  intros s''. reflexivity.
Defined.

(** C5, as stated, fails.  A remainder with two slashes keeps both, where
    the claim has one collapsed; a remainder with three loses two, where
    the claim has it lose one. *)
Lemma two_slashes_are_kept :
  parseConnectionString Script.resolve "file://x" = ("//x", [])
  /\ parseConnectionString Script.resolve "file://x"
     <> parse_after_scheme Script.resolve (Js.slice_from 1 "//x") []
  /\ parseConnectionString Script.resolve "file:///tmp/db" = ("/tmp/db", [])
  /\ parseConnectionString Script.resolve "file:///tmp/db"
     <> parse_after_scheme Script.resolve (Js.slice_from 1 "///tmp/db") [].
Proof.
  split; [reflexivity |]. split; [vm_compute; discriminate |].
  split; [reflexivity |]. vm_compute; discriminate.
Qed.

(** C7, as stated, fails: the parameter [mode] with a value other than
    [ro] has no entry in the list. *)
Lemma mode_rw_gives_no_flag :
  connection_args "/tmp/db" [("mode", "rw")] = ["clickhouse"; "--path=/tmp/db"]
  /\ ~ (forall path params,
           List.length (connection_args path params)
           = 1 + (if path =? ":memory:" then 0 else 1) + List.length params).
Proof.
  split; [reflexivity |].
  intros claim. specialize (claim "/tmp/db" [("mode", "rw")]).
  vm_compute in claim. discriminate.
Qed.

(** Four parameters, one of them an array index. *)
Lemma connection_args_shape_witness :
  let params := [("mode", "ro"); ("7", "x"); ("--", ""); ("verbose", "")] in
  (fst ("verbose", "") =? "mode") = false
  /\ connection_args "/tmp/db" params
     = ["clickhouse"; "--path=/tmp/db"; "--7=x"; "--readonly=1"; "--";
        "--verbose"]
  /\ List.length (flag_of_param ("verbose", "")) = 1.
Proof.
  intros params.
  destruct (connection_args_shape "/tmp/db" params) as (Hargs & _ & Hone & _).
  split; [reflexivity |].
  split; [rewrite Hargs; reflexivity |].
  exact (Hone ("verbose", "") eq_refl).
Defined.

(** C8, as stated, fails: the error of a result block does not hold the
    message of the engine as it is, and the error of a failed connect
    holds no message of the engine at all. *)
Lemma block_error_message_is_prefixed :
  ~ (forall (resultPtr : Pointer) (s : @State Script.World) (msg : string)
            (e : JsError),
        mem_cstring Script.native (world s)
          (mem_ptr Script.native (world s) resultPtr errorMessageOffset) None
        = inr msg ->
        fst (processLocalResultV2 Script.native resultPtr s) = Throw e ->
        message e = msg)
  /\ fst (Connection_new Script.resolve Script.native "/tmp/db"
            (initial {| Script.connect_answer := 0%Z;
                        Script.query_answer := 0%Z;
                        Script.stream_answer := 0%Z;
                        Script.stream_error := 0%Z;
                        Script.chunks := [] |}))
     = Throw (CHDBError
                "Failed to connect to chDB connection at path: /tmp/db").
Proof.
  split; [| reflexivity].
  intros claim.
  specialize (claim Script.block_error (initial (Script.healthy [])) "boom"
                    (CHDBError "chDB Error: boom") eq_refl eq_refl).
  discriminate.
Qed.

(** The message of the block that carries [boom]. *)
Lemma error_messages_witness :
  let s := initial (Script.healthy []) in
  mem_ptr Script.native (world s) Script.block_error errorMessageOffset
  <> 0%Z
  /\ mem_cstring Script.native (world s)
       (mem_ptr Script.native (world s) Script.block_error errorMessageOffset)
       None = inr "boom"
  /\ raises (processLocalResultV2 Script.native Script.block_error s)
            (fun e => message e = "chDB Error: boom").
Proof.
  intros s.
  assert (Hp : mem_ptr Script.native (world s) Script.block_error
                 errorMessageOffset <> 0%Z) by (vm_compute; discriminate).
  split; [exact Hp |]. split; [reflexivity |].
  destruct (error_messages Script.resolve Script.native) as (H & _).
  exact (H Script.block_error "boom" s Hp eq_refl).
Defined.

(** C9, as stated, fails.  A pull whose block has a payload too long
    for a string raises what the construction of the string raised,
    which is no [CHDBError].  And a fetched block that carries an error
    message but no data raises nothing: the pull returns [done]. *)
Lemma stream_errors_are_not_all_CHDBError :
  let g :=
    {| gen_ctx := {| ctx_id := 1; connPtr := Script.conn;
                     streamPtr := Script.cursor |};
       gen_state := SuspendedYield |} in
  (exists e,
      fst (fst (next Script.native g
                  (initial (Script.healthy [Script.block_oversized]))))
      = Throw e
      /\ instanceof_CHDBError e = false)
  /\ mem_cstring Script.native (Script.healthy [])
       (mem_ptr Script.native (Script.healthy []) Script.block_failed
          errorMessageOffset) None = inr "boom"
  /\ fst (fst (next Script.native g
                 (initial (Script.healthy [Script.block_failed]))))
     = Ret IterDone.
Proof.
  intros g. split; [eexists; split; [vm_compute; reflexivity | reflexivity] |].
  split; reflexivity.
Qed.

(** A stream refused by the engine. *)
Lemma failures_raise_CHDBError_witness :
  let w :=
    {| Script.connect_answer := Script.handle;
       Script.query_answer := 0%Z;
       Script.stream_answer := 0%Z;
       Script.stream_error := 0%Z;
       Script.chunks := [] |} in
  let this :=
    {| conn_id := 0; path := ":memory:"; params := [];
       ptr := Script.handle |} in
  mem_ptr Script.native w (ptr this) 0 <> 0%Z
  /\ fst (lib_query_conn_streaming Script.native w
            (mem_ptr Script.native w (ptr this) 0)
            ("select 1" +++ NUL) ("CSV" +++ NUL)) = 0%Z
  /\ raises (Connection_stream Script.native this "select 1" None (initial w))
            library_error.
Proof.
  intros w this.
  assert (Hc : mem_ptr Script.native w (ptr this) 0 <> 0%Z)
    by (vm_compute; discriminate).
  split; [exact Hc |]. split; [reflexivity |].
  destruct (failures_raise_CHDBError Script.resolve Script.native)
    as (_ & _ & _ & _ & H & _).
  exact (H this "select 1" None (initial w) Hc eq_refl).
Defined.

(** A stream whose first block has no data, with a good block behind
    it that is never fetched. *)
Lemma empty_chunk_ends_stream_witness :
  let g :=
    {| gen_ctx := {| ctx_id := 1; connPtr := Script.conn;
                     streamPtr := Script.cursor |};
       gen_state := SuspendedYield |} in
  let s := initial (Script.healthy [Script.block_empty; Script.block_ok]) in
  reaches_fetch Script.native g s s
  /\ fst (lib_chdb_streaming_fetch_result Script.native (world s)
            Script.conn Script.cursor) = Script.block_empty
  /\ mem_ptr Script.native
       (snd (lib_chdb_streaming_fetch_result Script.native (world s)
               Script.conn Script.cursor))
       Script.block_empty 0 = 0%Z
  /\ fst (fst (next Script.native g s)) = Ret IterDone
  /\ trace (snd (next Script.native g s))
     = [Call_streaming_fetch_result Script.conn Script.cursor;
        Read Script.block_empty 0;
        Call_free_result_v2 Script.block_empty;
        Call_destroy_result Script.cursor].
Proof.
  intros g s.
  assert (R : reaches_fetch Script.native g s s)
    by (apply from_yield; reflexivity).
  split; [exact R |]. split; [reflexivity |]. split; [reflexivity |].
  assert (Hp : fst (lib_chdb_streaming_fetch_result Script.native (world s)
                      (connPtr (gen_ctx g)) (streamPtr (gen_ctx g)))
               <> 0%Z) by (vm_compute; discriminate).
  pose proof (empty_chunk_ends_stream Script.native g s s R Hp eq_refl) as H.
  destruct (next Script.native g s) as [[o g'] s'] eqn:E.
  destruct H as (Ho & _ & He & _).
  cbn [fst snd]. split; [exact Ho |].
  vm_compute in E. injection E as _ _ <-. reflexivity.
Defined.

(** ** More runs on the scripted module *)

(** A relative path with a query. *)
Lemma query_keeps_path_witness :
  "data/db" <> ""
  /\ Js.indexOf "data/db" "?" = None
  /\ fst (parseConnectionString Script.resolve "data/db?mode=ro")
     = "/cwd/data/db".
Proof.
  assert (H1 : "data/db" <> "") by discriminate.
  assert (H2 : Js.indexOf "data/db" "?" = None) by reflexivity.
  split; [exact H1 |]. split; [exact H2 |].
  exact (query_keeps_path Script.resolve "data/db" "mode=ro" H1 H2).
Defined.

(** An absolute path. *)
Lemma plain_path_has_no_params_witness :
  Js.indexOf "/var/lib/chdb" "?" = None
  /\ Js.head "/var/lib/chdb" = Some "/"%char
  /\ parseConnectionString Script.resolve "/var/lib/chdb"
     = ("/var/lib/chdb", []).
Proof.
  assert (H : Js.indexOf "/var/lib/chdb" "?" = None) by reflexivity.
  split; [exact H |]. split; [reflexivity |].
  exact (proj2 (plain_path_has_no_params Script.resolve "/var/lib/chdb" H)
               eq_refl).
Defined.

(** Two [udf_path] in one query: the first is the one expanded. *)
Lemma udf_path_is_expanded_witness :
  let q := "udf_path=/opt/udf&a=1&udf_path=/other" in
  "db" <> ""
  /\ Js.indexOf "db" "?" = None
  /\ URLSearchParams.get (URLSearchParams.parse q) "udf_path"
     = Some "/opt/udf"
  /\ "/opt/udf" <> ""
  /\ snd (parseConnectionString Script.resolve ("db" +++ "?" +++ q))
     = [("a", "1"); ("--", ""); ("user_scripts_path", "/opt/udf");
        ("user_defined_executable_functions_config", "/opt/udf/*.xml")]
  /\ Js.get (snd (parseConnectionString Script.resolve ("db" +++ "?" +++ q)))
            "user_scripts_path" = Some "/opt/udf".
Proof.
  intros q.
  assert (H1 : "db" <> "") by discriminate.
  assert (H2 : Js.indexOf "db" "?" = None) by reflexivity.
  assert (H3 : URLSearchParams.get (URLSearchParams.parse q) "udf_path"
               = Some "/opt/udf") by reflexivity.
  assert (H4 : "/opt/udf" <> "") by discriminate.
  split; [exact H1 |]. split; [exact H2 |]. split; [exact H3 |].
  split; [exact H4 |]. split; [reflexivity |].
  exact (proj1 (proj2 (proj2
    (udf_path_is_expanded Script.resolve "db" q "/opt/udf" H1 H2 H3 H4)))).
Defined.

(** A key given twice. *)
Lemma last_occurrence_wins_witness :
  Js.get (snd (parseConnectionString Script.resolve "db?a=1&b=2&a=3")) "a"
  = Some "3"
  /\ Js.get (snd (parseConnectionString Script.resolve "db?a=1&b=2&a=3")) "c"
     = None.
Proof.
  assert (H1 : "db" <> "") by discriminate.
  assert (H2 : Js.indexOf "db" "?" = None) by reflexivity.
  split.
  - exact (last_occurrence_wins Script.resolve "db" "a=1&b=2&a=3" "a" H1 H2
             ltac:(discriminate) ltac:(discriminate) ltac:(discriminate)
             ltac:(discriminate) ltac:(discriminate)).
  - exact (last_occurrence_wins Script.resolve "db" "a=1&b=2&a=3" "c" H1 H2
             ltac:(discriminate) ltac:(discriminate) ltac:(discriminate)
             ltac:(discriminate) ltac:(discriminate)).
Defined.

(** The parameters of [db?mode=ro&verbose], and those of
    [db?mode=rw&verbose]. *)
Lemma params_become_flags_witness :
  let params := snd (parseConnectionString Script.resolve "db?mode=ro&verbose") in
  let others := snd (parseConnectionString Script.resolve "db?mode=rw&verbose") in
  Js.get params "mode" = Some "ro"
  /\ Js.get params "verbose" = Some ""
  /\ In "--readonly=1" (connection_args "/cwd/db" params)
  /\ In "--verbose" (connection_args "/cwd/db" params)
  /\ Js.get others "mode" = Some "rw"
  /\ NoDup (map fst others)
  /\ connection_args "/cwd/db" others
     = connection_args "/cwd/db" (Js.delete others "mode")
  /\ connection_args "/cwd/db" others
     = ["clickhouse"; "--path=/cwd/db"; "--verbose"].
Proof.
  intros params others.
  assert (H1 : Js.get params "mode" = Some "ro") by reflexivity.
  assert (H2 : Js.get params "verbose" = Some "") by reflexivity.
  assert (H3 : Js.get others "mode" = Some "rw") by reflexivity.
  assert (H4 : NoDup (map fst others)).
  { constructor; [intros [H | []]; discriminate |].
    constructor; [intros [] | constructor]. }
  split; [exact H1 |]. split; [exact H2 |]. split; [| split].
  - exact (proj1 (params_become_flags "/cwd/db" params "mode" "ro" H1)
                 eq_refl eq_refl).
  - exact (proj1 (proj2 (proj2
             (params_become_flags "/cwd/db" params "verbose" "" H2)))
                 ltac:(discriminate) ltac:(discriminate) eq_refl).
  - split; [exact H3 |]. split; [exact H4 |]. split; [| reflexivity].
    exact (proj2 (proj2 (proj2 (proj2
             (params_become_flags "/cwd/db" others "mode" "rw" H3))))
                 eq_refl ltac:(discriminate) H4).
Defined.


(** The decoder on the block with a payload. *)
Lemma decoder_frees_last_witness :
  let s := initial (Script.healthy []) in
  let s' := snd (processLocalResultV2 Script.native Script.block_ok s) in
  trace s'
  = [Read Script.block_ok 48; Read Script.block_ok 0; Read Script.block_ok 8;
     NewCString Script.payload (Some 4%Z); Read Script.block_ok 24;
     Read Script.block_ok 32; Read Script.block_ok 40;
     Call_free_result_v2 Script.block_ok]
  /\ exists before,
       events_since s s' = before ++ [Call_free_result_v2 Script.block_ok]
       /\ count is_free before = 0.
Proof.
  intros s s'. split; [reflexivity |].
  destruct (decoder_frees_last Script.native Script.block_ok s)
    as (before & He & Hc & _).
  exists before. split; [exact He | exact Hc].
Defined.

(** A stream opened on a live connection. *)
Lemma stream_is_lazy_witness :
  let this :=
    {| conn_id := 0; path := ":memory:"; params := [];
       ptr := Script.handle |} in
  let s := initial (Script.healthy [Script.block_ok]) in
  mem_ptr Script.native (world s) (ptr this) 0 <> 0%Z
  /\ let '(o, s') := Connection_stream Script.native this "select 1" None s in
     events_since s s'
     = [Read Script.handle 0;
        Call_query_conn_streaming Script.conn ("select 1" +++ NUL)
          ("CSV" +++ NUL)]
     /\ exists g, o = Ret g /\ gen_state g = SuspendedStart.
Proof.
  intros this s.
  assert (Hc : mem_ptr Script.native (world s) (ptr this) 0 <> 0%Z)
    by (vm_compute; discriminate).
  split; [exact Hc |].
  pose proof (stream_is_lazy Script.native this "select 1" None s Hc) as H.
  destruct (Connection_stream Script.native this "select 1" None s)
    as [[g | e] s'] eqn:E.
  - destruct H as (He & _ & Hg & _). split; [exact He |].
    exists g. split; [reflexivity | exact Hg].
  - vm_compute in E. discriminate.
Defined.

(** A connection whose handle points to null. *)
Lemma closed_connection_stops_early_witness :
  let this :=
    {| conn_id := 0; path := ":memory:"; params := []; ptr := 999%Z |} in
  let s := initial (Script.healthy []) in
  mem_ptr Script.native (world s) (ptr this) 0 = 0%Z
  /\ trace (snd (Connection_query Script.native this "select 1" None s))
     = [Read 999%Z 0]
  /\ trace (snd (Connection_stream Script.native this "select 1" None s))
     = [Read 999%Z 0].
Proof.
  intros this s.
  assert (H : mem_ptr Script.native (world s) (ptr this) 0 = 0%Z)
    by reflexivity.
  split; [exact H |].
  destruct (closed_connection_stops_early Script.native this "select 1" None
              s H) as [-> ->].
  split; reflexivity.
Defined.

(** The one-shot query of the test, [select 123]. *)
Lemma query_frees_what_it_got_witness :
  let s := initial (Script.healthy []) in
  fst (lib_query_stable_v2 Script.native (world s) 4
         (argvPtr (buildArgv ["clickhouse"; "--multiquery";
                              "--output-format=CSV"; "--query=select 123"])))
  <> 0%Z
  /\ count is_free
       (events_since s (snd (query Script.native "select 123" None s))) = 1
  /\ exists result,
       fst (query Script.native "select 123" None s) = Ret result
       /\ rowsRead (stats result) = 1%Z.
Proof.
  intros s.
  assert (Hb : fst (lib_query_stable_v2 Script.native (world s) 4
                      (argvPtr (buildArgv
                         ["clickhouse"; "--multiquery";
                          "--output-format=CSV"; "--query=select 123"])))
               <> 0%Z) by (vm_compute; discriminate).
  split; [exact Hb |]. split.
  - destruct (query_frees_what_it_got Script.native "select 123" None s)
      as [[_ H] _].
    exact (proj1 (H Hb)).
  - eexists. split; [vm_compute; reflexivity | reflexivity].
Defined.

(** A pull that fetches the block with an error message. *)
Lemma fetched_block_is_freed_once_witness :
  let g :=
    {| gen_ctx := {| ctx_id := 1; connPtr := Script.conn;
                     streamPtr := Script.cursor |};
       gen_state := SuspendedYield |} in
  let s := initial (Script.healthy [Script.block_error]) in
  reaches_fetch Script.native g s s
  /\ fst (lib_chdb_streaming_fetch_result Script.native (world s)
            Script.conn Script.cursor) <> 0%Z
  /\ fst (fst (next Script.native g s)) = Throw (CHDBError "chDB Error: boom")
  /\ count (is_free_of Script.block_error)
       (events_since s (snd (next Script.native g s))) = 1.
Proof.
  intros g s.
  assert (R : reaches_fetch Script.native g s s)
    by (apply from_yield; reflexivity).
  assert (Hb : fst (lib_chdb_streaming_fetch_result Script.native (world s)
                      (connPtr (gen_ctx g)) (streamPtr (gen_ctx g)))
               <> 0%Z) by (vm_compute; discriminate).
  split; [exact R |]. split; [exact Hb |]. split; [reflexivity |].
  destruct (fetched_block_is_freed_once Script.native g s s R) as [_ H].
  exact (proj1 (proj2 (H Hb))).
Defined.

(** The registries after a connection and a stream were opened. *)
Lemma registries_stay_ok_witness :
  let s := initial (Script.healthy [Script.block_ok]) in
  let s1 := snd (Connection_new Script.resolve Script.native ":memory:" s) in
  let this :=
    {| conn_id := 0; path := ":memory:"; params := [];
       ptr := Script.handle |} in
  registries_ok s
  /\ registries_ok s1
  /\ registries_ok
       (snd (Connection_stream Script.native this "select 1" None s1)).
Proof.
  intros s s1 this.
  destruct (registries_stay_ok Script.resolve Script.native) as [H0 H].
  assert (Hs : registries_ok s) by apply H0.
  assert (Hs1 : registries_ok s1).
  { destruct (H s Hs) as (_ & Hn & _). apply Hn. }
  split; [exact Hs |]. split; [exact Hs1 |].
  destruct (H s1 Hs1) as (_ & _ & _ & Hst & _). apply Hst.
Defined.

(** A stream opened and given up before its first pull. *)
Lemma unstarted_stream_is_left_to_registry_witness :
  let this :=
    {| conn_id := 0; path := ":memory:"; params := [];
       ptr := Script.handle |} in
  let s := initial (Script.healthy [Script.block_ok]) in
  let g :=
    {| gen_ctx := {| ctx_id := 0; connPtr := Script.conn;
                     streamPtr := Script.cursor |};
       gen_state := SuspendedStart |} in
  let s1 := snd (Connection_stream Script.native this "select 1" None s) in
  streams_fresh s
  /\ Connection_stream Script.native this "select 1" None s = (Ret g, s1)
  /\ return_ Script.native g s1 = (Ret IterDone, completed g, s1)
  /\ trace (snd (streamRegistry_collect Script.native 0 s1))
     = trace s1 ++ [Call_streaming_cancel_query Script.conn Script.cursor;
                    Call_destroy_result Script.cursor].
Proof.
  intros this s g s1.
  assert (Hf : streams_fresh s) by constructor.
  assert (Hs : Connection_stream Script.native this "select 1" None s
               = (Ret g, s1)) by reflexivity.
  split; [exact Hf |]. split; [exact Hs |].
  destruct (unstarted_stream_is_left_to_registry Script.native this
              "select 1" None s s1 g Hf Hs) as [Hr _].
  split; [exact Hr | reflexivity].
Defined.

(** The loop of the test on a stream of three blocks: three rows are
    counted and the stream is destroyed once. *)
Lemma for_of_cleans_up_witness :
  let g :=
    {| gen_ctx := {| ctx_id := 1; connPtr := Script.conn;
                     streamPtr := Script.cursor |};
       gen_state := SuspendedStart |} in
  let s :=
    {| world := Script.healthy
                  [Script.block_ok; Script.block_ok; Script.block_ok];
       trace := [];
       connectionRegistry := [];
       streamRegistry :=
         [{| reg_target := 1; reg_held := (Script.conn, Script.cursor);
             reg_token := Some 1 |}];
       next_id := 2 |} in
  gen_state g <> Completed
  /\ stream_tokens_ok s
  /\ exists g' s',
       for_of Script.native 10 add_rowsRead g 0%Z s = Some (Ret 3%Z, g', s')
       /\ gen_state g' = Completed
       /\ count is_destroy (events_since s s') = 1
       /\ count is_cancel (events_since s s') = 0
       /\ count is_free (trace s') = 3.
Proof.
  intros g s.
  assert (Hg : gen_state g <> Completed) by discriminate.
  assert (Hok : stream_tokens_ok s) by (repeat constructor).
  split; [exact Hg |]. split; [exact Hok |].
  destruct (for_of Script.native 10 add_rowsRead g 0%Z s)
    as [[[r g'] s'] |] eqn:E; [| vm_compute in E; discriminate].
  destruct (for_of_cleans_up Script.native add_rowsRead 10 g 0%Z s r g' s'
              Hg Hok E) as (Hc & _ & Hd & Hn & _).
  exists g', s'.
  vm_compute in E. injection E as <- <- <-.
  split; [reflexivity |]. split; [exact Hc |]. split; [exact Hd |].
  split; [exact Hn | reflexivity].
Defined.

(** A stream that failed before its first pull. *)
Lemma initial_error_stops_before_fetch_witness :
  let w :=
    {| Script.connect_answer := Script.handle;
       Script.query_answer := Script.block_ok;
       Script.stream_answer := Script.cursor;
       Script.stream_error := Script.stream_error_text;
       Script.chunks := [Script.block_ok] |} in
  let g :=
    {| gen_ctx := {| ctx_id := 1; connPtr := Script.conn;
                     streamPtr := Script.cursor |};
       gen_state := SuspendedStart |} in
  gen_state g = SuspendedStart
  /\ fst (lib_chdb_streaming_result_error Script.native w Script.cursor)
     <> 0%Z
  /\ fst (fst (next Script.native g (initial w)))
     = Throw (CHDBError
                "chDB Streaming Initialization Error: query was cancelled")
  /\ trace (snd (next Script.native g (initial w)))
     = [Call_streaming_result_error Script.cursor;
        NewCString Script.stream_error_text None;
        Call_destroy_result Script.cursor].
Proof.
  intros w g.
  assert (He : fst (lib_chdb_streaming_result_error Script.native
                      (world (initial w)) (streamPtr (gen_ctx g)))
               <> 0%Z) by (vm_compute; discriminate).
  split; [reflexivity |]. split; [exact He |].
  pose proof (initial_error_stops_before_fetch Script.native g (initial w)
                eq_refl He) as H.
  destruct (next Script.native g (initial w)) as [[o g'] s'] eqn:E.
  destruct H as (_ & _ & _ & Hm).
  cbn [fst snd]. split; [exact (Hm "query was cancelled" eq_refl) |].
  vm_compute in E. injection E as _ _ <-. reflexivity.
Defined.

(** The relative path of the README, with and without the prefix. *)
Lemma file_scheme_is_optional_witness :
  "my_database.db" <> ""
  /\ Js.startsWith "my_database.db" "file:" = false
  /\ Js.startsWith "my_database.db" "///" = false
  /\ parseConnectionString Script.resolve "file:my_database.db"
     = ("/cwd/my_database.db", [])
  /\ parseConnectionString Script.resolve "file:my_database.db"
     = parseConnectionString Script.resolve "my_database.db".
Proof.
  assert (H1 : "my_database.db" <> "") by discriminate.
  split; [exact H1 |]. split; [reflexivity |]. split; [reflexivity |].
  split; [reflexivity |].
  exact (file_scheme_is_optional Script.resolve "my_database.db" H1
           eq_refl eq_refl).
Defined.
